(** * pointmoney: dual-tier storage manager and points ledger

    A shallow embedding of
    - the [StorageManager] class ([set], [remove], [sync], [isPersistentKey],
      [cleanNonPersistentData], [clearAll]),
    - [sync] of the browser helper object [storage],
    - the zustand store [useAuthStore] (stores/authStore.ts),
    and the properties of them that the specification states.

    Conventions of the model.
    - A JavaScript [number] is an IEEE 754 double.  The model has the
      doubles that hold an integer, as a [Z], the two infinities and [NaN];
      a sum or a difference is rounded to the nearest double, so that it is
      exact up to 2^53 and not beyond.  Numbers with a fraction are outside
      the model, and [-0] is not told from [0].
    - A JavaScript object is a finite map from property names to values; a
      property that is absent has no entry in the map and reads as
      [undefined].  The directory [users] is read with [users[id]], which
      also finds what every object inherits from [Object.prototype].
    - A Web Storage area ([localStorage], [sessionStorage]) is the ordered list
      of its key/value pairs; [setItem] may throw [QuotaExceededError], which
      is decided by a quota oracle that the model takes as a parameter.
    - [new Date().toISOString()] is an argument [now] of the operation that
      reads the clock. *)

From Stdlib Require Import ZArith Lia List.
From stdpp Require Import base option list strings gmap pretty.

Local Open Scope string_scope.
Local Open Scope list_scope.

(** ** Web Storage areas *)

Module WebStorage.

(** The pairs of an area in the order [key(0)], [key(1)], ...  (The order is
    left to the browser as long as it is stable while no key is added or
    removed; here a new key goes to the end.) *)
Definition Storage : Type := list (string * string).

Definition length (s : Storage) : nat := List.length s.

(** [storage.key(i)]: [null] (here [None]) when [i] is out of range. *)
Definition key (i : nat) (s : Storage) : option string := fst <$> s !! i.

(** The keys [key(0) .. key(length-1)], as a [for] loop over the indices
    visits them while the area is not modified. *)
Definition keys (s : Storage) : list string := map fst s.

(** [storage.getItem(k)]: [null] (here [None]) when [k] is absent. *)
Fixpoint getItem (k : string) (s : Storage) : option string :=
  match s with
  | [] => None
  | (k', v) :: s' => if String.eqb k k' then Some v else getItem k s'
  end.

(** The effect of a [storage.setItem(k, v)] that does not throw: the value
    of an existing key is replaced in place, a new key goes to the end. *)
Fixpoint put (k v : string) (s : Storage) : Storage :=
  match s with
  | [] => [(k, v)]
  | (k', v') :: s' =>
      if String.eqb k k' then (k, v) :: s' else (k', v') :: put k v s'
  end.

(** [storage.removeItem(k)]; an absent key is not an error. *)
Fixpoint removeItem (k : string) (s : Storage) : Storage :=
  match s with
  | [] => []
  | (k', v') :: s' =>
      if String.eqb k k' then s' else (k', v') :: removeItem k s'
  end.

(** The two areas of a page. *)
Inductive area : Type := InLocal | InSession.

Record Browser : Type := mkBrowser {
  localStorage : Storage;
  sessionStorage : Storage
}.

Definition with_area (a : area) (s : Storage) (b : Browser) : Browser :=
  match a with
  | InLocal => {| localStorage := s; sessionStorage := sessionStorage b |}
  | InSession => {| localStorage := localStorage b; sessionStorage := s |}
  end.

(** Whether an area in a given state takes a write of [k := v]; [false]
    stands for [setItem] throwing [QuotaExceededError]. *)
Definition Quota : Type := area -> Storage -> string -> string -> bool.

(** [storage.setItem(k, v)]: [None] when it throws, and then the area is as
    it was. *)
Definition setItem (quota : Quota) (a : area) (k v : string) (s : Storage)
  : option Storage :=
  if quota a s k v then Some (put k v s) else None.

(** JavaScript truthiness of a string: the empty string is falsy. *)
Definition truthy (s : string) : bool := negb (String.eqb s "").

(** *** Sample quotas and areas *)

(** A quota that takes every write, and one under which [sessionStorage] is
    full and [localStorage] is not. *)
Definition unlimited : Quota := fun _ _ _ _ => true.

Definition session_full : Quota :=
  fun a _ _ _ => match a with InLocal => true | InSession => false end.

(** [sessionStorage] alone has the persistent entry [pointmoney_users]. *)
Definition users_in_session_only : Browser :=
  {| localStorage := []; sessionStorage := [("pointmoney_users", "{}")] |}.

End WebStorage.

(** ** JavaScript strings *)

Module JSString.

(** [s.startsWith(p)] *)
Definition startsWith (p s : string) : bool := String.prefix p s.

Fixpoint drop (n : nat) (s : string) : string :=
  match n, s with
  | O, _ => s
  | S n', String _ s' => drop n' s'
  | S _, EmptyString => EmptyString
  end.

(** [s.replace(p, '')] for a string pattern [p]: the first occurrence of
    [p] in [s], if any, is removed. *)
Fixpoint replace_first_by_empty (p s : string) : string :=
  if String.prefix p s then drop (String.length p) s
  else match s with
       | EmptyString => EmptyString
       | String c s' => String c (replace_first_by_empty p s')
       end.

End JSString.

(** ** The storage manager (class [StorageManager]) *)

Module StorageManager.
Import WebStorage.

Definition storagePrefix : string := "pointmoney_".

Definition persistentKeys : gset string :=
  {[ "auth_credentials"; "users"; "point-storage"; "withdrawal-storage" ]}.

(** [getKey(key)] *)
Definition getKey (key : string) : string := storagePrefix +:+ key.

(** [isPersistentKey(key)] *)
Definition isPersistentKey (key : string) : bool :=
  bool_decide (key ∈ persistentKeys).

(** [key.replace(this.storagePrefix, '')] *)
Definition unprefixed (key : string) : string :=
  JSString.replace_first_by_empty storagePrefix key.

(** The keys that the first loop of [sync] takes: all of them. *)
Definition every_key : string -> bool := fun _ => true.

(** The keys that the second loop of [sync] takes. *)
Definition persistent_key (key : string) : bool :=
  isPersistentKey (unprefixed key).

(** The entries of [src] that a loop of [sync] writes when it reaches them:
    the key is truthy and [wanted], the value is truthy. *)
Definition copied (wanted : string -> bool) (src : Storage) (k v : string) : Prop :=
  truthy k = true ∧ wanted k = true ∧ getItem k src = Some v ∧ truthy v = true.

(** How a block that runs inside [try] ends: to its end, or by a throw that
    the [catch] takes; either way with the state reached so far. *)
Inductive completion (A : Type) : Type :=
| Completed (a : A)
| Thrown (a : A).
Arguments Completed {A} a.
Arguments Thrown {A} a.

Definition state_of {A : Type} (c : completion A) : A :=
  match c with Completed a => a | Thrown a => a end.

Definition has_thrown {A : Type} (c : completion A) : bool :=
  match c with Completed _ => false | Thrown _ => true end.

Section WithEnvironment.

(** The quota of the two areas. *)
Variable quota : Quota.

(** The values handed to [set], and [JSON.stringify] on them: [None] when
    it throws (a cyclic value, a BigInt), else the string that [setItem]
    stores. *)
Variable value : Type.
Variable JSON_stringify : value -> option string.

(** [set(key, value)]: the result and the areas after the call. *)
Definition set (key : string) (v : value) (b : Browser) : bool * Browser :=
  let prefixedKey := getKey key in
  match JSON_stringify v with
  | None => (false, b)
  | Some serializedValue =>
      match setItem quota InLocal prefixedKey serializedValue (localStorage b) with
      | None => (false, b)
      | Some l =>
          let b1 := with_area InLocal l b in
          match setItem quota InSession prefixedKey serializedValue (sessionStorage b1) with
          | None => (false, b1)
          | Some s => (true, with_area InSession s b1)
          end
      end
  end.

(** [remove(key)]; [removeItem] does not throw. *)
Definition remove (key : string) (b : Browser) : bool * Browser :=
  let prefixedKey := getKey key in
  (true, {| localStorage := removeItem prefixedKey (localStorage b);
            sessionStorage := removeItem prefixedKey (sessionStorage b) |}).

(** One [for] loop of [sync]: for the keys [ks] of the area [src], in order,
    a key that is truthy and [wanted], and whose value in [src] is truthy,
    is written to the area [a], whose contents are [dst]; the first write
    that throws ends the loop. *)
Fixpoint copy_loop (wanted : string -> bool) (a : area) (src : Storage)
    (ks : list string) (dst : Storage) : completion Storage :=
  match ks with
  | [] => Completed dst
  | key :: ks' =>
      if truthy key && wanted key then
        match getItem key src with
        | Some v =>
            if truthy v then
              match setItem quota a key v dst with
              | Some dst' => copy_loop wanted a src ks' dst'
              | None => Thrown dst
              end
            else copy_loop wanted a src ks' dst
        | None => copy_loop wanted a src ks' dst
        end
      else copy_loop wanted a src ks' dst
  end.

(** The body of the [try] of [sync()]: first [localStorage] to
    [sessionStorage], every key; then [sessionStorage] to [localStorage],
    the persistent keys only. *)
Definition sync_body (b : Browser) : completion Browser :=
  match copy_loop every_key InSession
          (localStorage b) (keys (localStorage b)) (sessionStorage b) with
  | Thrown s => Thrown (with_area InSession s b)
  | Completed s =>
      let b1 := with_area InSession s b in
      match copy_loop persistent_key InLocal
              (sessionStorage b1) (keys (sessionStorage b1)) (localStorage b1) with
      | Thrown l => Thrown (with_area InLocal l b1)
      | Completed l => Completed (with_area InLocal l b1)
      end
  end.

(** [sync()]: the [catch] logs the error and returns. *)
Definition sync (b : Browser) : Browser := state_of (sync_body b).

(** [cleanNonPersistentData()]: the namespaced keys of [localStorage] that
    are not persistent are collected, then removed. *)
Definition cleanNonPersistentData (b : Browser) : Browser :=
  let keysToRemove :=
    List.filter (fun key => JSString.startsWith storagePrefix key
                            && negb (isPersistentKey (unprefixed key)))
                (keys (localStorage b)) in
  with_area InLocal (foldl (fun s key => removeItem key s) (localStorage b) keysToRemove) b.

(** [clearAll()]: every namespaced key of [localStorage] is removed. *)
Definition clearAll (b : Browser) : Browser :=
  let keysToRemove :=
    List.filter (fun key => JSString.startsWith storagePrefix key)
                (keys (localStorage b)) in
  with_area InLocal (foldl (fun s key => removeItem key s) (localStorage b) keysToRemove) b.

End WithEnvironment.

(** [JSON.stringify] on values that are strings already and that it takes
    as they are. *)
Definition stringify_string : string -> option string := Some.

End StorageManager.

(** ** The browser helper [storage] (no namespace, no allowlist) *)

Module BrowserStorage.
Import WebStorage.
Import StorageManager.

(** [storage.sync()]: both loops copy every key; the result is [true] when
    the [try] block ran to its end. *)
Definition sync (quota : Quota) (b : Browser) : bool * Browser :=
  match copy_loop quota every_key InSession
          (localStorage b) (keys (localStorage b)) (sessionStorage b) with
  | Thrown s => (false, with_area InSession s b)
  | Completed s =>
      let b1 := with_area InSession s b in
      match copy_loop quota every_key InLocal
              (sessionStorage b1) (keys (sessionStorage b1)) (localStorage b1) with
      | Thrown l => (false, with_area InLocal l b1)
      | Completed l => (true, with_area InLocal l b1)
      end
  end.

End BrowserStorage.


(** ** JavaScript values and objects *)

Module JS.

(** A [number]: a double that holds the integer [z], [NaN], [Infinity] or
    [-Infinity]. *)
Inductive number : Type := Int (z : Z) | NaN | Infinity (negative : bool).

(** The values that the properties of a [User] hold. *)
Inductive val : Type :=
| Undefined
| Num (n : number)
| Str (s : string).

#[global] Instance number_eq_dec : EqDecision number.
Proof. solve_decision. Defined.
#[global] Instance val_eq_dec : EqDecision val.
Proof. solve_decision. Defined.

(** An object: its own properties.  [{...a, k: v}] is [<[k:=v]> a]. *)
Abbreviation obj := (gmap string val).

(** [o.k]: a property that is absent reads as [undefined].  The
    properties that the store reads from an account ([id], [loginId],
    [password], [points], [totalEarned]) are not among those that an object
    inherits. *)
Definition prop (o : obj) (k : string) : val := default Undefined (o !! k).

(** [...o] inside an object literal, for [o] that may be [undefined]:
    spreading [undefined] adds no property.  In [{...users[id]}] the same
    holds when [users[id]] is a member that the directory inherits, which
    has no enumerable property of its own, so that [{...users[id]}] is
    [spread (users !! id)]. *)
Definition spread (o : option obj) : obj := default ∅ o.

(** The double that is nearest to the integer [n], with ties to the even
    significand (the rounding of IEEE 754 binary64).  Every integer up to
    2^53 is a double.  Above, a double is [q * 2^e] with a significand [q]
    of 53 bits: [n] lies between [q * 2^e] and [(q + 1) * 2^e], and [r] is
    what it has above the first.  A magnitude of 2^1024 or more after
    rounding is an infinity. *)
Definition to_double (n : Z) : number :=
  let a := Z.abs n in
  if (a <=? 2 ^ 53)%Z then Int n
  else
    let e := (Z.log2 a - 52)%Z in
    let q := (a / 2 ^ e)%Z in
    let r := (a mod 2 ^ e)%Z in
    let q' := if (2 * r <? 2 ^ e)%Z then q
              else if (2 ^ e <? 2 * r)%Z then (q + 1)%Z
              else if Z.even q then q else (q + 1)%Z in
    if (2 ^ 1024 <=? q' * 2 ^ e)%Z then Infinity (n <? 0)%Z
    else Int (Z.sgn n * (q' * 2 ^ e)).

(** The decimal with the fewest significant digits whose double is [a],
    for [a] of [n] digits ([Number::toString]): with [k] digits, the
    candidates are the multiples of [10^(n-k)] on the two sides of [a]; of
    two that do, the nearer one, and the one with an even last digit when
    they are as near. *)
Fixpoint shortest_decimal (more : nat) (k n a : Z) : Z :=
  match more with
  | O => a
  | S more' =>
      let p := (10 ^ (n - k))%Z in
      let lo := (a / p * p)%Z in
      let hi := (lo + p)%Z in
      let is_a c := bool_decide (to_double c = Int a) in
      match is_a lo, is_a hi with
      | true, true =>
          if (a - lo <? hi - a)%Z then lo
          else if (hi - a <? a - lo)%Z then hi
          else if Z.even (a / p) then lo else hi
      | true, false => lo
      | false, true => hi
      | false, false => shortest_decimal more' (k + 1) n a
      end
  end.

(** A decimal without the zeros at its end. *)
Fixpoint strip_zeros (more : nat) (c : Z) : Z :=
  match more with
  | O => c
  | S more' => if (c mod 10 =? 0)%Z then strip_zeros more' (c / 10) else c
  end.

(** [String(a)] for a double [a > 0] that holds an integer: its shortest
    decimal, in full below 10^21 and as [d.ddde+x] from there on. *)
Definition positive_to_string (a : Z) : string :=
  let n := Z.of_nat (String.length (pretty a)) in
  let c := shortest_decimal (Z.to_nat n) 1 n a in
  if (c <? 10 ^ 21)%Z then pretty c
  else
    let x := (Z.of_nat (String.length (pretty c)) - 1)%Z in
    match pretty (strip_zeros (Z.to_nat x) c) with
    | String d EmptyString => String d "e+" +:+ pretty x
    | String d ds => String d ("." +:+ ds) +:+ "e+" +:+ pretty x
    | EmptyString => EmptyString
    end.

(** [String(n)] *)
Definition number_to_string (n : number) : string :=
  match n with
  | Int 0 => "0"
  | Int (Z.pos p) => positive_to_string (Z.pos p)
  | Int (Z.neg p) => "-" +:+ positive_to_string (Z.pos p)
  | NaN => "NaN"
  | Infinity false => "Infinity"
  | Infinity true => "-Infinity"
  end.

(** The property name that a computed key [[v]] denotes. *)
Definition to_key (v : val) : string :=
  match v with
  | Undefined => "undefined"
  | Num n => number_to_string n
  | Str s => s
  end.

(** [Number(v)] for what the [User] type allows in [points] and
    [totalEarned]: a number, or nothing ([undefined] is [NaN]).  A string
    in their place is outside that type; the conversion of strings to
    numbers is not modelled, and a string reads as [NaN]. *)
Definition to_number (v : val) : number :=
  match v with
  | Num n => n
  | Undefined | Str _ => NaN
  end.

(** [a + b] *)
Definition add (a b : number) : number :=
  match a, b with
  | Int x, Int y => to_double (x + y)
  | NaN, _ | _, NaN => NaN
  | Infinity s, Int _ | Int _, Infinity s => Infinity s
  | Infinity s, Infinity s' => if Bool.eqb s s' then Infinity s else NaN
  end.

(** [a - b] *)
Definition sub (a b : number) : number :=
  match a, b with
  | Int x, Int y => to_double (x - y)
  | NaN, _ | _, NaN => NaN
  | Infinity s, Int _ => Infinity s
  | Int _, Infinity s => Infinity (negb s)
  | Infinity s, Infinity s' => if Bool.eqb s s' then NaN else Infinity s
  end.

(** [a > b]: [false] as soon as one side is [NaN]. *)
Definition gt (a b : number) : bool :=
  match a, b with
  | Int x, Int y => (y <? x)%Z
  | NaN, _ | _, NaN => false
  | Infinity s, Int _ => negb s
  | Int _, Infinity s => s
  | Infinity s, Infinity s' => negb s && s'
  end.

(** [Math.max(a, b)]: [NaN] as soon as one side is [NaN]. *)
Definition Math_max (a b : number) : number :=
  match a, b with
  | Int x, Int y => Int (Z.max x y)
  | NaN, _ | _, NaN => NaN
  | Infinity false, _ | _, Infinity false => Infinity false
  | Infinity true, n | n, Infinity true => n
  end.

(** [Number.isSafeInteger(z)]: the integers on which the arithmetic of
    doubles is that of the integers. *)
Definition safe_integer (z : Z) : Prop :=
  (- (2 ^ 53 - 1) ≤ z ≤ 2 ^ 53 - 1)%Z.

(** A number that is a double: the result of every operation is one. *)
Definition is_double (n : number) : Prop :=
  match n with Int z => to_double z = Int z | _ => True end.

(** [v + n] for a number [n]: concatenation when [v] is a string. *)
Definition plus (v : val) (n : number) : val :=
  match v with
  | Str s => Str (s +:+ number_to_string n)
  | _ => Num (add (to_number v) n)
  end.

(** [v === s] for a string [s] *)
Definition strict_eq_string (v : val) (s : string) : bool :=
  match v with Str s' => String.eqb s' s | _ => false end.

(** The names of the properties of [Object.prototype], which every object
    made by an object literal inherits. *)
Definition Object_prototype : list string :=
  [ "constructor"; "__defineGetter__"; "__defineSetter__"; "hasOwnProperty";
    "__lookupGetter__"; "__lookupSetter__"; "isPrototypeOf";
    "propertyIsEnumerable"; "toString"; "valueOf"; "__proto__";
    "toLocaleString" ].

(** What [users[k]] finds in a directory: the row that the directory has
    under [k] as a property of its own, or else the member of that name
    that it inherits from [Object.prototype]: a function, and for
    [__proto__] the prototype itself.  Both are truthy. *)
Inductive member : Type :=
| Own (row : obj)
| Inherited (name : string).

(** [users[k]]; [undefined] is [None]. *)
Definition lookup_member (users : gmap string obj) (k : string) : option member :=
  match users !! k with
  | Some row => Some (Own row)
  | None => if bool_decide (k ∈ Object_prototype) then Some (Inherited k) else None
  end.

(** The properties that [{...x}] copies and that [x.points] and
    [x.totalEarned] read: those of the row; an inherited member has no
    enumerable property of its own, and neither [points] nor
    [totalEarned]. *)
Definition properties (x : member) : obj :=
  match x with
  | Own row => row
  | Inherited _ => ∅
  end.

End JS.

(** ** The store [useAuthStore] *)

Module AuthStore.
Import JS.

(** The data of [AuthState]. *)
Record AuthState : Type := mkAuthState {
  user : option obj;
  users : gmap string obj;
  isAuthenticated : bool;
  customIcon : option string
}.

(** Modelled from the spec: [authManager] (utils/auth) is not among the
    sources.  The specification has it as an external collaborator that the
    store only calls: the [CredentialStore] with [addCredential(id, secret)]
    and [reset()], and the persistence of an account row, which is
    [saveUser].  A call is recorded with its arguments, in the order of the
    calls, and is taken to return.  The last constructor is the write of the
    [persist] middleware of zustand, which hands the state to [storage.set]
    under the name of the store after every [set]. *)
Inductive call : Type :=
| saveUser (u : obj)
| addCredential (loginId password : val)
| authManager_reset
| storage_set (name : string) (s : AuthState).

Record World : Type := mkWorld {
  store : AuthState;
  calls : list call
}.

Inductive error : Type := TypeError.

Inductive result (A : Type) : Type :=
| Returns (a : A)
| Throws (e : error).
Arguments Returns {A} a.
Arguments Throws {A} e.

(** An operation of the store: it reads and writes the world, and returns
    or throws. *)
Definition Op (A : Type) : Type := World -> result A * World.

Definition ret {A : Type} (a : A) : Op A := fun w => (Returns a, w).

Definition throw {A : Type} (e : error) : Op A := fun w => (Throws e, w).

Definition bind {A B : Type} (m : Op A) (f : A -> Op B) : Op B :=
  fun w =>
    match m w with
    | (Returns a, w') => f a w'
    | (Throws e, w') => (Throws e, w')
    end.

Notation "'let/op' x := m 'in' k" := (bind m (fun x => k))
  (at level 10, x name, m at level 100, k at level 200).
Notation "m >> k" := (bind m (fun _ => k))
  (at level 100, k at level 200, right associativity).

Definition storeName : string := "auth-storage".

(** [get()] *)
Definition get : Op AuthState := fun w => (Returns (store w), w).

(** [set(partial)]: the store takes the new state, and [persist] writes it. *)
Definition set (f : AuthState -> AuthState) : Op unit :=
  fun w =>
    let s := f (store w) in
    (Returns tt, {| store := s; calls := calls w ++ [storage_set storeName s] |}).

(** A call to [authManager]. *)
Definition perform (c : call) : Op unit :=
  fun w => (Returns tt, {| store := store w; calls := calls w ++ [c] |}).

(** [login(userData)] *)
Definition login (userData : obj) (now : string) : Op unit :=
  let/op s := get in
  let currentUsers := users s in
  let id := to_key (prop userData "id") in
  let updatedUser := <["lastLogin" := Str now]> (spread (currentUsers !! id)) in
  set (fun st => {| user := Some updatedUser;
                    users := <[id := updatedUser]> currentUsers;
                    isAuthenticated := true;
                    customIcon := customIcon st |}) >>
  perform (saveUser updatedUser).

(** [logout()] *)
Definition logout : Op unit :=
  set (fun st => {| user := None;
                    users := users st;
                    isAuthenticated := false;
                    customIcon := customIcon st |}).

(** [updateProfile(updates)]; in [{...a, ...updates}] the properties of
    [updates] win. *)
Definition updateProfile (updates : obj) : Op unit :=
  let/op s := get in
  match user s with
  | None => ret tt
  | Some u =>
      let id := to_key (prop u "id") in
      let updatedUser := updates ∪ spread (users s !! id) in
      set (fun st => {| user := Some updatedUser;
                        users := <[id := updatedUser]> (users s);
                        isAuthenticated := isAuthenticated st;
                        customIcon := customIcon st |}) >>
      perform (saveUser updatedUser)
  end.

(** [updateIcon(base64)] *)
Definition updateIcon (base64 : string) : Op unit :=
  set (fun st => {| user := user st;
                    users := users st;
                    isAuthenticated := isAuthenticated st;
                    customIcon := Some base64 |}).

(** [updateAvatar(avatarUrl)] *)
Definition updateAvatar (avatarUrl : string) : Op unit :=
  let/op s := get in
  match user s with
  | None => ret tt
  | Some u =>
      let id := to_key (prop u "id") in
      let updatedUser := <["avatarUrl" := Str avatarUrl]> (spread (users s !! id)) in
      set (fun st => {| user := Some updatedUser;
                        users := <[id := updatedUser]> (users s);
                        isAuthenticated := isAuthenticated st;
                        customIcon := customIcon st |}) >>
      perform (saveUser updatedUser)
  end.

(** [updatePoints(points)]; reading [totalEarned] of [users[id]] throws a
    [TypeError] when [users[id]] is [undefined]. *)
Definition updatePoints (points : number) : Op unit :=
  let/op s := get in
  match user s with
  | None => ret tt
  | Some u =>
      let id := to_key (prop u "id") in
      match lookup_member (users s) id with
      | None => throw TypeError
      | Some found =>
          let updatedUser :=
            <["totalEarned" := plus (prop (properties found) "totalEarned") points]>
              (<["points" := Num points]> (properties found)) in
          set (fun st => {| user := Some updatedUser;
                            users := <[id := updatedUser]> (users s);
                            isAuthenticated := isAuthenticated st;
                            customIcon := customIcon st |}) >>
          perform (saveUser updatedUser)
      end
  end.

(** [updateUserPoints(userId, points)]; [currentUser] is what [users[userId]]
    finds, so that the call goes on for a name that the directory
    inherits. *)
Definition updateUserPoints (userId : string) (points : number) : Op unit :=
  let/op s := get in
  match lookup_member (users s) userId with
  | None => ret tt
  | Some found =>
      let currentUser := properties found in
      let updatedUser :=
        <["totalEarned" :=
            plus (prop currentUser "totalEarned")
                 (if gt points (to_number (prop currentUser "points"))
                  then sub points (to_number (prop currentUser "points"))
                  else Int 0)]>
          (<["points" := Num (Math_max (Int 0) points)]> currentUser) in
      set (fun st => {| users := <[userId := updatedUser]> (users s);
                        user := match user s with
                                | Some u =>
                                    if strict_eq_string (prop u "id") userId
                                    then Some updatedUser else user s
                                | None => user s
                                end;
                        isAuthenticated := isAuthenticated st;
                        customIcon := customIcon st |}) >>
      perform (saveUser updatedUser)
  end.

(** [getUser(userId)]: [null] is [None]. *)
Definition getUser (userId : string) : Op (option member) :=
  let/op s := get in
  ret (lookup_member (users s) userId).

(** [registerUser(userData)] *)
Definition registerUser (userData : obj) (now : string) : Op obj :=
  let password := prop userData "password" in
  let userDataWithoutPassword := delete "password" userData in
  let newUser :=
    <["role" := Str "worker"]>
      (<["totalEarned" := Num (Int 0)]>
        (<["joinedAt" := Str now]>
          (<["status" := Str "active"]>
            (<["points" := Num (Int 0)]>
              (<["id" := prop userData "loginId"]> userDataWithoutPassword))))) in
  perform (addCredential (prop userData "loginId") password) >>
  perform (saveUser newUser) >>
  set (fun state => {| user := user state;
                       users := <[to_key (prop newUser "id") := newUser]> (users state);
                       isAuthenticated := isAuthenticated state;
                       customIcon := customIcon state |}) >>
  ret newUser.

(** [reset()]; [getUsers] is what [authManager.getUsers()] returns after
    the reset. *)
Definition reset (getUsers : gmap string obj) : Op unit :=
  perform authManager_reset >>
  set (fun _ => {| user := None;
                   users := getUsers;
                   isAuthenticated := false;
                   customIcon := None |}).

(** The state of a fresh store. *)
Definition initial (getUsers : gmap string obj) : World :=
  {| store := {| user := None; users := getUsers;
                 isAuthenticated := false; customIcon := None |};
     calls := [] |}.

(** *** The ledger invariants *)

(** [points] is an integer that is not negative. *)
Definition balance_nonneg (o : obj) : bool :=
  match o !! "points" with
  | Some (Num (Int z)) => (0 <=? z)%Z
  | _ => false
  end.

(** Every account of the directory has a balance that is not negative. *)
Definition balances_nonneg (s : AuthState) : Prop :=
  map_Forall (fun _ o => balance_nonneg o = true) (users s).

(** The active user, if there is one, has a row in the directory. *)
Definition active_in_directory (s : AuthState) : Prop :=
  match user s with
  | Some u => is_Some (users s !! to_key (prop u "id"))
  | None => True
  end.

(** No account of the directory has a [password] property. *)
Definition no_password_stored (s : AuthState) : Prop :=
  map_Forall (fun _ (o : obj) => o !! "password" = None) (users s).

(** The operations on accounts other than [updatePoints]. *)
Inductive operation : Type :=
| RegisterUser (userData : obj) (now : string)
| Login (userData : obj) (now : string)
| UpdateProfile (updates : obj)
| UpdateAvatar (avatarUrl : string)
| UpdateUserPoints (userId : string) (points : Z).

Definition run (o : operation) : Op unit :=
  match o with
  | RegisterUser userData now => registerUser userData now >> ret tt
  | Login userData now => login userData now
  | UpdateProfile updates => updateProfile updates
  | UpdateAvatar avatarUrl => updateAvatar avatarUrl
  | UpdateUserPoints userId points => updateUserPoints userId (Int points)
  end.

(** The calls in which the code leaves every balance as it is or sets it
    to an integer that is not negative: [login] of an id that the directory
    has; [updateProfile] with updates whose [points] is such an integer, or
    with updates that have no [points] while the active user has a row;
    [updateAvatar] while the active user has a row. *)
Definition keeps_balances (o : operation) (s : AuthState) : Prop :=
  match o with
  | RegisterUser _ _ => True
  | Login userData _ => is_Some (users s !! to_key (prop userData "id"))
  | UpdateProfile updates =>
      balance_nonneg updates = true
      ∨ (updates !! "points" = None ∧ active_in_directory s)
  | UpdateAvatar _ => active_in_directory s
  | UpdateUserPoints _ _ => True
  end.

(** The account that [registerUser] builds, [newUser]. *)
Definition new_account (userData : obj) (now : string) : obj :=
  <["role" := Str "worker"]>
    (<["totalEarned" := Num (Int 0)]>
      (<["joinedAt" := Str now]>
        (<["status" := Str "active"]>
          (<["points" := Num (Int 0)]>
            (<["id" := prop userData "loginId"]> (delete "password" userData)))))).

(** *** Sample worlds *)

(** An account as [registerUser] makes it, with the given ledger. *)
Definition account (id : string) (points totalEarned : Z) : obj :=
  {[ "id" := Str id; "loginId" := Str id; "points" := Num (Int points);
     "totalEarned" := Num (Int totalEarned); "status" := Str "active";
     "role" := Str "worker"; "joinedAt" := Str "2024-01-01T00:00:00.000Z" ]}.

(** A store whose directory has the one account [u], nobody signed in. *)
Definition signed_out (id : string) (u : obj) : World :=
  initial {[ id := u ]}.

(** A store whose directory has the one account [u], who is signed in. *)
Definition signed_in (id : string) (u : obj) : World :=
  {| store := {| user := Some u; users := {[ id := u ]};
                 isAuthenticated := true; customIcon := None |};
     calls := [] |}.

End AuthStore.

(** ** The ledger as a transition system *)

Module Ledger.
Import JS AuthStore.

(** Every call of the store. *)
Inductive action : Type :=
| DoRegisterUser (userData : obj) (now : string)
| DoLogin (userData : obj) (now : string)
| DoLogout
| DoUpdateProfile (updates : obj)
| DoUpdateIcon (base64 : string)
| DoUpdateAvatar (avatarUrl : string)
| DoUpdatePoints (points : number)
| DoUpdateUserPoints (userId : string) (points : number)
| DoGetUser (userId : string)
| DoReset (getUsers : gmap string obj).

(** The world after the call, whether it returned or threw. *)
Definition step (a : action) (w : World) : World :=
  match a with
  | DoRegisterUser userData now => (registerUser userData now w).2
  | DoLogin userData now => (login userData now w).2
  | DoLogout => (logout w).2
  | DoUpdateProfile updates => (updateProfile updates w).2
  | DoUpdateIcon base64 => (updateIcon base64 w).2
  | DoUpdateAvatar avatarUrl => (updateAvatar avatarUrl w).2
  | DoUpdatePoints points => (updatePoints points w).2
  | DoUpdateUserPoints userId points => (updateUserPoints userId points w).2
  | DoGetUser userId => (getUser userId w).2
  | DoReset getUsers => (reset getUsers w).2
  end.

(** Every row of a directory is stored under its own [id], a string. *)
Definition keyed_rows (m : gmap string obj) : Prop :=
  map_Forall (fun k (r : obj) => r !! "id" = Some (Str k)) m.

(** The active user is the row that the directory has under its [id]. *)
Definition active_row (s : AuthState) : Prop :=
  match user s with
  | Some u => users s !! to_key (prop u "id") = Some u
  | None => True
  end.

Definition consistent (s : AuthState) : Prop :=
  keyed_rows (users s) ∧ active_row s.

(** The calls that keep the directory keyed and the active user in step
    with it: [registerUser] and [login] with a string id, the one of
    [registerUser] not that of the active user, the one of [login] in the
    directory; [updateProfile] with updates that have no [id];
    [updateUserPoints] for an id that the directory has, or that is not the
    name of a member of [Object.prototype]; [reset] to a keyed directory;
    every other call. *)
Definition keeps_consistent (a : action) (s : AuthState) : Prop :=
  match a with
  | DoRegisterUser userData _ =>
      ∃ k, userData !! "loginId" = Some (Str k)
           ∧ match user s with
             | Some u => u !! "id" ≠ Some (Str k)
             | None => True
             end
  | DoLogin userData _ =>
      ∃ k, userData !! "id" = Some (Str k) ∧ is_Some (users s !! k)
  | DoUpdateProfile updates => updates !! "id" = None
  | DoUpdateUserPoints userId _ =>
      is_Some (users s !! userId) ∨ userId ∉ Object_prototype
  | DoReset getUsers => keyed_rows getUsers
  | _ => True
  end.

(** [isAuthenticated] says whether there is an active user. *)
Definition flag_in_step (s : AuthState) : Prop :=
  isAuthenticated s = match user s with Some _ => true | None => false end.

(** The integer that a row has under a property, if it has one. *)
Definition integer_of (r : obj) (k : string) : option Z :=
  match r !! k with
  | Some (Num (Int z)) => Some z
  | _ => None
  end.

(** [totalEarned] and [points] of the account [id]. *)
Definition total_earned (s : AuthState) (id : string) : option Z :=
  users s !! id ≫= fun r => integer_of r "totalEarned".

Definition balance (s : AuthState) (id : string) : option Z :=
  users s !! id ≫= fun r => integer_of r "points".

(** [updateUserPoints(id, a)] for each [a] of [amounts], in order. *)
Definition set_balances (id : string) (amounts : list Z) (w : World) : World :=
  foldl (fun w a => (updateUserPoints id (Int a) w).2) w amounts.

(** The most that a sequence of balances can add to [totalEarned]: each
    balance in full. *)
Definition most_earned (amounts : list Z) : Z :=
  foldr (fun a total => (Z.max 0 a + total)%Z) 0%Z amounts.

(** The calls that an operation has added to those made before. *)
Definition new_calls (w w' : World) (l : list call) : Prop :=
  calls w' = calls w ++ l.

End Ledger.

(** ** The storage manager: [get] *)

Module StorageManagerGet.
Import WebStorage StorageManager.

(** The keys that [cleanNonPersistentData] collects. *)
Definition purged (k : string) : bool :=
  JSString.startsWith storagePrefix k && negb (isPersistentKey (unprefixed k)).

Section WithParser.

(** The values that [get] returns, [JSON.parse] on the stored strings
    ([None] when it throws a [SyntaxError]) and the test [parsed === null]. *)
Variable value : Type.
Variable JSON_parse : string -> option value.
Variable is_null : value -> bool.

(** [get(key, defaultValue)] *)
Definition get (key : string) (defaultValue : value) (b : Browser) : value :=
  let prefixedKey := getKey key in
  match getItem prefixedKey (localStorage b) with
  | None => defaultValue
  | Some v =>
      if truthy v then
        match JSON_parse v with
        | None => defaultValue
        | Some parsed => if is_null parsed then defaultValue else parsed
        end
      else defaultValue
  end.

End WithParser.

(** A [parsed === null] test for strings, none of which is [null]. *)
Definition never_null : string -> bool := fun _ => false.

End StorageManagerGet.

(** ** The browser helper [storage] and the hook [useStorageSync] *)

Module BrowserHelper.
Import WebStorage.

(** An area is well formed when no key occurs twice in it. *)
Definition well_formed (s : Storage) : Prop := NoDup (keys s).

Definition storage_of (a : area) (b : Browser) : Storage :=
  match a with InLocal => localStorage b | InSession => sessionStorage b end.

(** What [JSON.stringify] returns when it does not throw: a string, or
    [undefined] (for [undefined], a function, a symbol). *)
Inductive serialized : Type :=
| Text (s : string)
| NoText.

(** The string that [setItem(key, x)] stores. *)
Definition item_of (x : serialized) : string :=
  match x with Text s => s | NoText => "undefined" end.

(** The [newValue] of a [StorageEvent] made with [newValue: x]: a member that
    is [undefined] gets the default of the dictionary, [null]. *)
Definition newValue_of (x : serialized) : option string :=
  match x with Text s => Some s | NoText => None end.

(** The members of a [StorageEvent] that the hook reads; [storageArea] is
    [None] when it is neither [localStorage] nor [sessionStorage]. *)
Record StorageEvent : Type := mkStorageEvent {
  key : option string;
  newValue : option string;
  storageArea : option area
}.

(** The item that [if (item)] lets through: one that is neither [null] nor
    the empty string. *)
Definition if_truthy (item : option string) : option string :=
  match item with
  | Some v => if truthy v then Some v else None
  | None => None
  end.

Definition otherStorage (a : area) : area :=
  match a with InLocal => InSession | InSession => InLocal end.

Section WithEnvironment.

Variable quota : Quota.

(** [handleStorage(e)] of [useStorageSync]: [None] when [setItem] throws,
    and then the areas are as they were. *)
Definition handleStorage (e : StorageEvent) (b : Browser) : option Browser :=
  match key e, storageArea e with
  | Some k, Some origin =>
      if truthy k then
        let other := otherStorage origin in
        match newValue e with
        | None => Some (with_area other (removeItem k (storage_of other b)) b)
        | Some v =>
            match setItem quota other k v (storage_of other b) with
            | Some s => Some (with_area other s b)
            | None => None
            end
        end
      else Some b
  | _, _ => Some b
  end.

(** One listener takes the event; what it throws is reported by the browser
    and does not reach the code that dispatched the event. *)
Definition deliver (e : StorageEvent) (b : Browser) : Browser :=
  default b (handleStorage e b).

(** [window.dispatchEvent(e)] with [listeners] mounted components that use
    [useStorageSync]. *)
Definition dispatchEvent (listeners : nat) (e : StorageEvent) (b : Browser) : Browser :=
  Nat.iter listeners (deliver e) b.

Variable value : Type.

(** [JSON.stringify]: [None] when it throws. *)
Variable JSON_stringify : value -> option serialized.

(** [JSON.parse]: [None] when it throws. *)
Variable JSON_parse : string -> option value.

(** [storage.get(key, defaultValue)]: the result and the areas after the
    call. *)
Definition get (k : string) (defaultValue : value) (b : Browser) : value * Browser :=
  match if_truthy (getItem k (localStorage b)) with
  | Some localItem =>
      match JSON_parse localItem with
      | None => (defaultValue, b)
      | Some parsedLocal =>
          match setItem quota InSession k localItem (sessionStorage b) with
          | Some s => (parsedLocal, with_area InSession s b)
          | None => (defaultValue, b)
          end
      end
  | None =>
      match if_truthy (getItem k (sessionStorage b)) with
      | Some sessionItem =>
          match JSON_parse sessionItem with
          | None => (defaultValue, b)
          | Some parsedSession =>
              match setItem quota InLocal k sessionItem (localStorage b) with
              | Some l => (parsedSession, with_area InLocal l b)
              | None => (defaultValue, b)
              end
          end
      | None => (defaultValue, b)
      end
  end.

(** [storage.set(key, value)], with [listeners] mounted components that
    use [useStorageSync]. *)
Definition set (listeners : nat) (k : string) (v : value) (b : Browser)
  : bool * Browser :=
  match JSON_stringify v with
  | None => (false, b)
  | Some serializedValue =>
      match setItem quota InLocal k (item_of serializedValue) (localStorage b) with
      | None => (false, b)
      | Some l =>
          let b1 := with_area InLocal l b in
          match setItem quota InSession k (item_of serializedValue) (sessionStorage b1) with
          | None => (false, b1)
          | Some s =>
              let b2 := with_area InSession s b1 in
              (true, dispatchEvent listeners
                       {| key := Some k;
                          newValue := newValue_of serializedValue;
                          storageArea := Some InLocal |} b2)
          end
      end
  end.

(** [storage.remove(key)] *)
Definition remove (k : string) (b : Browser) : bool * Browser :=
  (true, {| localStorage := removeItem k (localStorage b);
            sessionStorage := removeItem k (sessionStorage b) |}).

(** [storage.clear()] *)
Definition clear (b : Browser) : bool * Browser :=
  (true, {| localStorage := []; sessionStorage := [] |}).

(** What [checkFeatureSupport] asks of the page: whether a canvas gives a 2d
    context, whether its [toDataURL('image/webp')] starts with
    [data:image/webp], and whether [window.indexedDB] is truthy. *)
Record Page : Type := mkPage {
  canvas_2d : bool;
  canvas_webp : bool;
  has_indexedDB : bool
}.

(** [checkFeatureSupport(feature)] *)
Definition checkFeatureSupport (page : Page) (feature : string) (b : Browser)
  : bool * Browser :=
  if String.eqb feature "webp" then
    (if canvas_2d page then canvas_webp page else false, b)
  else if String.eqb feature "localStorage" then
    match setItem quota InLocal "test" "test" (localStorage b) with
    | Some l => (true, with_area InLocal (removeItem "test" l) b)
    | None => (false, b)
    end
  else if String.eqb feature "indexedDB" then (has_indexedDB page, b)
  else (false, b).

End WithEnvironment.

(** *** Sample events and parsers *)

(** [JSON.parse] and [JSON.stringify] on values that are strings already
    and that they take as they are. *)
Definition parse_string : string -> option string := Some.

Definition stringify_text : string -> option serialized := fun s => Some (Text s).

(** [JSON.stringify] on [undefined]. *)
Definition stringify_undefined : unit -> option serialized := fun _ => Some NoText.

(** A page with a canvas that encodes WebP and with [indexedDB]. *)
Definition sample_page : Page :=
  {| canvas_2d := true; canvas_webp := true; has_indexedDB := true |}.

(** Areas that both hold the entry [k := v] and nothing else. *)
Definition both_hold (k v : string) : Browser :=
  {| localStorage := [(k, v)]; sessionStorage := [(k, v)] |}.

End BrowserHelper.

(** ** [getBrowserInfo] *)

Module BrowserInfo.

(** [s.indexOf(p) > -1] *)
Fixpoint contains (p s : string) : bool :=
  if String.prefix p s then true
  else match s with
       | EmptyString => false
       | String _ s' => contains p s'
       end.

(** The lower case of an ASCII letter; other characters as they are. *)
Definition lower (c : Ascii.ascii) : Ascii.ascii :=
  let n := Ascii.nat_of_ascii c in
  if (65 <=? n)%nat && (n <=? 90)%nat then Ascii.ascii_of_nat (n + 32) else c.

Fixpoint lowercase (s : string) : string :=
  match s with
  | EmptyString => EmptyString
  | String c s' => String (lower c) (lowercase s')
  end.

(** [/p/i.test(s)] for a pattern [p] made of letters. *)
Definition contains_i (p s : string) : bool :=
  contains (lowercase p) (lowercase s).

(** The class [[0-9.]]. *)
Definition digit_or_dot (c : Ascii.ascii) : bool :=
  let n := Ascii.nat_of_ascii c in
  ((48 <=? n)%nat && (n <=? 57)%nat) || (n =? 46)%nat.

(** The longest run of [[0-9.]] at the start of [s]. *)
Fixpoint version_run (s : string) : string :=
  match s with
  | EmptyString => EmptyString
  | String c s' => if digit_or_dot c then String c (version_run s') else EmptyString
  end.

(** [s.match(/marker([0-9.]+)/)?.[1] || ""] for a [marker] made of literal
    characters: the group of the leftmost match, or the empty string. *)
Fixpoint match_version (marker s : string) : string :=
  let here :=
    if String.prefix marker s
    then version_run (JSString.drop (String.length marker) s)
    else EmptyString in
  if negb (String.eqb here "") then here
  else match s with
       | EmptyString => EmptyString
       | String _ s' => match_version marker s'
       end.

(** Every character of [s] satisfies [P]. *)
Fixpoint every_char (P : Ascii.ascii -> bool) (s : string) : bool :=
  match s with
  | EmptyString => true
  | String c s' => P c && every_char P s'
  end.

Record Info : Type := mkInfo {
  name : string;
  version : string;
  isMobile : bool;
  isIOS : bool;
  isAndroid : bool;
  isJapanese : bool
}.

(** [getBrowserInfo()], of [navigator.userAgent] and [navigator.language]. *)
Definition getBrowserInfo (ua language : string) : Info :=
  let '(browserName, browserVersion) :=
    if contains "Firefox" ua then ("Firefox", match_version "Firefox/" ua)
    else if contains "Chrome" ua then ("Chrome", match_version "Chrome/" ua)
    else if contains "Safari" ua then ("Safari", match_version "Version/" ua)
    else if contains "Edge" ua then ("Edge", match_version "Edge/" ua)
    else ("Unknown", "Unknown") in
  {| name := browserName;
     version := browserVersion;
     isMobile := contains_i "Mobile" ua || contains_i "Android" ua
                 || contains_i "iPhone" ua;
     isIOS := contains_i "iPhone" ua || contains_i "iPad" ua || contains_i "iPod" ua;
     isAndroid := contains_i "Android" ua;
     isJapanese := contains "ja" language || contains "ja-JP" language |}.

End BrowserInfo.

(** * Properties *)

(** ** Web Storage areas *)

Section WebStorageFacts.
Import WebStorage.

Lemma getItem_put_eq (k v : string) (s : Storage) :
  getItem k (put k v s) = Some v.
Proof.
  induction s as [|[k' v'] s IH]; simpl.
  - by rewrite String.eqb_refl.
  - destruct (String.eqb k k') eqn:E; simpl; rewrite ?String.eqb_refl, ?E; done.
Qed.

Lemma getItem_put_ne (k k' v : string) (s : Storage) :
  k ≠ k' → getItem k' (put k v s) = getItem k' s.
Proof.
  intros Hne. induction s as [|[k0 v0] s IH]; simpl.
  - destruct (String.eqb_spec k' k); [congruence | done].
  - destruct (String.eqb_spec k k0) as [->|Hk]; simpl.
    + destruct (String.eqb_spec k' k0); [congruence | done].
    + by rewrite IH.
Qed.

(** Writing the value that a key already has changes nothing. *)
Lemma put_same (k v : string) (s : Storage) :
  getItem k s = Some v → put k v s = s.
Proof.
  induction s as [|[k' v'] s IH]; simpl; [done |].
  destruct (String.eqb_spec k k') as [->|Hk]; intros H.
  - by inversion H.
  - by rewrite IH.
Qed.

Lemma getItem_Some_keys (k v : string) (s : Storage) :
  getItem k s = Some v → In k (keys s).
Proof.
  induction s as [|[k' v'] s IH]; simpl; [done |].
  destruct (String.eqb_spec k k') as [->|Hk]; intros H; [by left | right; auto].
Qed.

(** [keys] lists what the loop over the indices reads with [key(i)]. *)
Lemma keys_by_index (s : Storage) (i : nat) :
  keys s !! i = key i s.
Proof. unfold keys, key. by rewrite list_lookup_fmap. Qed.

End WebStorageFacts.

(** ** JavaScript strings *)

Section JSStringFacts.
Import JSString.

Lemma prefix_app (p s : string) : String.prefix p (p +:+ s) = true.
Proof.
  induction p as [|c p IH]; simpl.
  - by destruct s.
  - destruct (Ascii.ascii_dec c c); [exact IH | done].
Qed.

Lemma drop_length_app (p s : string) : drop (String.length p) (p +:+ s) = s.
Proof. induction p as [|c p IH]; simpl; [by destruct s | exact IH]. Qed.

Lemma replace_first_unfold (p s : string) :
  replace_first_by_empty p s =
  if String.prefix p s then drop (String.length p) s
  else match s with
       | EmptyString => EmptyString
       | String c s' => String c (replace_first_by_empty p s')
       end.
Proof. by destruct s. Qed.

(** Removing the first occurrence of [p] from [p ++ s] gives [s] back. *)
Lemma replace_first_prefixed (p s : string) :
  replace_first_by_empty p (p +:+ s) = s.
Proof. by rewrite replace_first_unfold, prefix_app, drop_length_app. Qed.

End JSStringFacts.

(** ** The loops of [sync] *)

Section CopyLoop.
Import WebStorage StorageManager.

Variable quota : Quota.
Variable wanted : string -> bool.
Variable a : area.
Variable src : Storage.

#[local] Abbreviation copied := (copied wanted src).

(** The cases of one iteration: the write goes through, the write throws,
    and the four ways in which the key is passed over. *)
Ltac loop_step key dst w :=
  simpl;
  destruct (truthy key) eqn:Hkey; simpl;
  [ destruct (wanted key) eqn:Hwanted; simpl;
    [ destruct (getItem key src) as [w|] eqn:Hsrc;
      [ destruct (truthy w) eqn:Htruthy;
        [ unfold setItem; destruct (quota a dst key w) eqn:Hquota; simpl | ]
      | ]
    | ]
  | ].

(** After the loop a key holds what it held before, or what [src] has for
    it, and the latter only for a key of [ks] that the loop copies. *)
Lemma copy_loop_getItem (ks : list string) (dst : Storage) (k : string) :
  let final := state_of (copy_loop quota wanted a src ks dst) in
  getItem k final = getItem k dst
  ∨ ∃ v, copied k v ∧ In k ks ∧ getItem k final = Some v.
Proof.
  cbv zeta. revert dst. induction ks as [|key ks IH]; intros dst; [by left |].
  loop_step key dst v.
  - destruct (IH (put key v dst)) as [H|(v'&?&?&?)].
    + destruct (decide (key = k)) as [->|Hne].
      * right. exists v. rewrite H, getItem_put_eq.
        repeat split; simpl; auto.
      * left. by rewrite H, getItem_put_ne.
    + right. exists v'. simpl. auto.
  - by left.
  - destruct (IH dst) as [H|(v'&?&?&?)]; [by left | right; exists v'; simpl; auto].
  - destruct (IH dst) as [H|(v'&?&?&?)]; [by left | right; exists v'; simpl; auto].
  - destruct (IH dst) as [H|(v'&?&?&?)]; [by left | right; exists v'; simpl; auto].
  - destruct (IH dst) as [H|(v'&?&?&?)]; [by left | right; exists v'; simpl; auto].
Qed.

(** An entry that already agrees with [src] stays as it is. *)
Lemma copy_loop_agree (ks : list string) (dst : Storage) (k v : string) :
  getItem k src = Some v → getItem k dst = Some v →
  getItem k (state_of (copy_loop quota wanted a src ks dst)) = Some v.
Proof.
  intros Hsrc Hdst.
  destruct (copy_loop_getItem ks dst k) as [H|(v'&(_&_&Hv'&_)&_&H)].
  - by rewrite H.
  - rewrite H. congruence.
Qed.

(** A loop that runs to its end has written every entry it copies. *)
Lemma copy_loop_completed (ks : list string) (dst final : Storage) (k v : string) :
  copy_loop quota wanted a src ks dst = Completed final →
  In k ks → copied k v → getItem k final = Some v.
Proof.
  revert dst. induction ks as [|key ks IH]; intros dst Hrun Hin Hc; [done |].
  destruct Hc as (Hk & Hw & Hs & Hv).
  assert (Hc : copied k v) by (repeat split; done).
  destruct (decide (key = k)) as [->|Hne].
  - simpl in Hrun. rewrite Hk, Hw, Hs, Hv in Hrun. simpl in Hrun.
    unfold setItem in Hrun. destruct (quota a dst k v); [|done].
    pose proof (copy_loop_agree ks (put k v dst) k v Hs (getItem_put_eq k v dst)) as H.
    by rewrite Hrun in H.
  - destruct Hin as [?|Hin]; [done |].
    revert Hrun. loop_step key dst w; intros Hrun;
      [ by apply (IH (put key w dst)) | done | by apply (IH dst) .. ].
Qed.

(** When [dst] has every entry that the loop copies, the loop leaves it as
    it is (whether or not a write throws). *)
Lemma copy_loop_covered (ks : list string) (dst : Storage) :
  (∀ k v, copied k v → getItem k dst = Some v) →
  state_of (copy_loop quota wanted a src ks dst) = dst.
Proof.
  intros Hcov. induction ks as [|key ks IH]; [done |].
  loop_step key dst v; try done.
  rewrite put_same; [done |]. apply Hcov. repeat split; done.
Qed.

(** Running the loop again from the state it reached changes nothing, and
    a loop that was ended by a throw is ended by a throw again. *)
Lemma copy_loop_again (ks : list string) (dst : Storage) :
  let r := copy_loop quota wanted a src ks dst in
  let r' := copy_loop quota wanted a src ks (state_of r) in
  state_of r' = state_of r ∧ (has_thrown r = true → has_thrown r' = true).
Proof.
  cbv zeta. revert dst. induction ks as [|key ks IH]; intros dst; [done |].
  loop_step key dst v; try apply IH.
  - (* the write of [key] went through *)
    set (final := state_of (copy_loop quota wanted a src ks (put key v dst))).
    assert (Hfinal : getItem key final = Some v)
      by (apply copy_loop_agree; [done | apply getItem_put_eq]).
    destruct (quota a final key v); simpl.
    + rewrite (put_same _ _ _ Hfinal). apply IH.
    + done.
  - by rewrite Hquota.
Qed.

End CopyLoop.

(** ** [StorageManager.sync] *)

Section Sync.
Import WebStorage StorageManager.

Variable quota : Quota.

Lemma sync_body_unfold (l s : Storage) :
  sync_body quota {| localStorage := l; sessionStorage := s |} =
  match copy_loop quota every_key InSession l (keys l) s with
  | Thrown s' => Thrown {| localStorage := l; sessionStorage := s' |}
  | Completed s' =>
      match copy_loop quota persistent_key InLocal s' (keys s') l with
      | Thrown l' => Thrown {| localStorage := l'; sessionStorage := s' |}
      | Completed l' => Completed {| localStorage := l'; sessionStorage := s' |}
      end
  end.
Proof. reflexivity. Qed.

(** [sync] never writes to [localStorage] a key that is not persistent. *)
Lemma sync_local_not_persistent (b : Browser) (k : string) :
  persistent_key k = false →
  getItem k (localStorage (sync quota b)) = getItem k (localStorage b).
Proof.
  intros Hk. destruct b as [l s]. unfold sync. rewrite sync_body_unfold.
  destruct (copy_loop quota every_key InSession l (keys l) s) as [s'|s']; [|done].
  pose proof (copy_loop_getItem quota persistent_key InLocal s' (keys s') l k) as H.
  cbv zeta in H.
  destruct (copy_loop quota persistent_key InLocal s' (keys s') l) as [l'|l'];
    simpl in *; destruct H as [H|(v&(_&Hw&_)&_)]; congruence.
Qed.

(** The first loop leaves alone a key that [localStorage] does not have. *)
Lemma first_loop_absent (l s : Storage) (k : string) :
  getItem k l = None →
  getItem k (state_of (copy_loop quota every_key InSession l (keys l) s)) = getItem k s.
Proof.
  intros Hk.
  destruct (copy_loop_getItem quota every_key InSession l (keys l) s k)
    as [H|(v&(_&_&Hv&_)&_)]; [done | congruence].
Qed.

End Sync.

Section StorageManagerClaims.
Import WebStorage StorageManager.

Variable quota : Quota.

(** C8. [sync()] is idempotent: whatever the two areas hold and whichever
    writes the quota refuses, a second [sync()] right after the first
    leaves both areas exactly as the first left them. *)
Theorem sync_idempotent (b : Browser) :
  sync quota (sync quota b) = sync quota b.
Proof.
  destruct b as [l s]. unfold sync at 2 3. rewrite sync_body_unfold.
  pose proof (copy_loop_again quota every_key InSession l (keys l) s) as Hfirst.
  cbv zeta in Hfirst.
  destruct (copy_loop quota every_key InSession l (keys l) s) as [s1|s1] eqn:E1;
    simpl in Hfirst; destruct Hfirst as [Hstate Hthrown].
  - (* the first loop ran to its end *)
    pose proof (copy_loop_again quota persistent_key InLocal s1 (keys s1) l) as Hsecond.
    cbv zeta in Hsecond. destruct Hsecond as [Hstate2 _].
    set (l1 := state_of (copy_loop quota persistent_key InLocal s1 (keys s1) l)) in *.
    assert (Hres : state_of
              (match copy_loop quota persistent_key InLocal s1 (keys s1) l with
               | Thrown l' => Thrown {| localStorage := l'; sessionStorage := s1 |}
               | Completed l' => Completed {| localStorage := l'; sessionStorage := s1 |}
               end) = {| localStorage := l1; sessionStorage := s1 |}).
    { subst l1. by destruct (copy_loop quota persistent_key InLocal s1 (keys s1) l). }
    rewrite Hres. unfold sync. rewrite sync_body_unfold.
    (* [sessionStorage] has every entry that the first loop copies now *)
    assert (Hcov : ∀ k v, copied every_key l1 k v → getItem k s1 = Some v).
    { intros k v (Hk & _ & Hl1 & Hv).
      destruct (copy_loop_getItem quota persistent_key InLocal s1 (keys s1) l k)
        as [H|(v'&(_&_&Hs1&_)&_&H)]; fold l1 in H.
      - rewrite Hl1 in H. symmetry in H.
        eapply copy_loop_completed; [exact E1 | by eapply getItem_Some_keys |].
        repeat split; done.
      - congruence. }
    pose proof (copy_loop_covered quota every_key InSession l1 (keys l1) s1 Hcov) as Hs1.
    destruct (copy_loop quota every_key InSession l1 (keys l1) s1) as [s2|s2];
      simpl in Hs1; subst s2; [|done].
    destruct (copy_loop quota persistent_key InLocal s1 (keys s1) l1) as [l2|l2];
      simpl in Hstate2; by subst l2.
  - (* the first loop was ended by a throw: so it is again *)
    simpl. unfold sync. rewrite sync_body_unfold.
    specialize (Hthrown eq_refl).
    destruct (copy_loop quota every_key InSession l (keys l) s1) as [s2|s2];
      simpl in *; [done | by subst s2].
Qed.

Lemma sync_body_completed (l s : Storage) :
  has_thrown (sync_body quota {| localStorage := l; sessionStorage := s |}) = false →
  ∃ s' l',
    copy_loop quota every_key InSession l (keys l) s = Completed s'
    ∧ copy_loop quota persistent_key InLocal s' (keys s') l = Completed l'
    ∧ sync quota {| localStorage := l; sessionStorage := s |}
      = {| localStorage := l'; sessionStorage := s' |}.
Proof.
  unfold sync. rewrite sync_body_unfold.
  destruct (copy_loop quota every_key InSession l (keys l) s) as [s'|s']; [|done].
  destruct (copy_loop quota persistent_key InLocal s' (keys s') l) as [l'|l'] eqn:E;
    [|done].
  intros _. exists s', l'. by rewrite E.
Qed.

Lemma truthy_getKey (key : string) : truthy (getKey key) = true.
Proof. reflexivity. Qed.

Lemma persistent_key_getKey (key : string) :
  persistent_key (getKey key) = isPersistentKey key.
Proof.
  unfold persistent_key, unprefixed, getKey.
  by rewrite replace_first_prefixed.
Qed.

(** C7, as amended.  Take a namespaced entry [getKey key := v] that only
    [sessionStorage] has.  [StorageManager.sync()] never copies it into
    [localStorage] when [key] is not in the allowlist, nor when [v] is the
    empty string; and when [sync()] runs to its end (no write throws), the
    entry is copied if and only if [key] is in the allowlist and [v] is not
    the empty string.  [sync()] of the browser helper [storage] has no
    allowlist: when it runs to its end, it has copied the entry whenever [v]
    is not the empty string. *)
Theorem sync_session_only_entry (b : Browser) (key v : string) :
  getItem (getKey key) (sessionStorage b) = Some v →
  getItem (getKey key) (localStorage b) = None →
  let after := getItem (getKey key) (localStorage (sync quota b)) in
  (isPersistentKey key = false → after = None)
  ∧ (truthy v = false → after = None)
  ∧ (has_thrown (sync_body quota b) = false →
     (after = Some v ↔ isPersistentKey key = true ∧ truthy v = true))
  ∧ ((BrowserStorage.sync quota b).1 = true → truthy v = true →
     getItem (getKey key) (localStorage (BrowserStorage.sync quota b).2) = Some v).
Proof.
  intros Hs Hl after. subst after.
  assert (Hhelper : (BrowserStorage.sync quota b).1 = true → truthy v = true →
            getItem (getKey key) (localStorage (BrowserStorage.sync quota b).2) = Some v).
  { intros Hrun Hv. destruct b as [l s]; simpl in *.
    unfold BrowserStorage.sync in *; simpl in *.
    pose proof (first_loop_absent quota l s (getKey key) Hl) as Hs1.
    destruct (copy_loop quota every_key InSession l (keys l) s) as [s1|s1];
      simpl in *; [|done].
    destruct (copy_loop quota every_key InLocal s1 (keys s1) l) as [l1|l1] eqn:E2;
      simpl in *; [|done].
    eapply copy_loop_completed; [exact E2 | eapply getItem_Some_keys; by rewrite Hs1 |].
    unfold copied. split_and!; [apply truthy_getKey | done | by rewrite Hs1 | done]. }
  assert (Hnever : isPersistentKey key = false →
                   getItem (getKey key) (localStorage (sync quota b)) = None).
  { intros Hk. rewrite sync_local_not_persistent; [done |].
    by rewrite persistent_key_getKey. }
  assert (Hempty : truthy v = false →
                   getItem (getKey key) (localStorage (sync quota b)) = None).
  { intros Hv. destruct b as [l s]; simpl in *.
    unfold sync. rewrite sync_body_unfold.
    pose proof (first_loop_absent quota l s (getKey key) Hl) as Hs1.
    destruct (copy_loop quota every_key InSession l (keys l) s) as [s1|s1];
      simpl in *; [|done].
    pose proof (copy_loop_getItem quota persistent_key InLocal s1 (keys s1) l (getKey key)) as H.
    cbv zeta in H.
    destruct (copy_loop quota persistent_key InLocal s1 (keys s1) l) as [l1|l1];
      simpl in *; destruct H as [H|(v'&(_&_&Hv'&Ht)&_)]; congruence. }
  split; [done |]. split; [done |]. split; [|done]. clear Hhelper.
  intros Hrun. destruct b as [l s]; simpl in *.
  destruct (sync_body_completed l s Hrun) as (s1 & l1 & E1 & E2 & Hsync).
  pose proof (first_loop_absent quota l s (getKey key) Hl) as Hs1.
  rewrite E1 in Hs1; simpl in Hs1. rewrite Hs in Hs1.
  split.
  - intros Hafter.
    destruct (isPersistentKey key) eqn:Hk; [|rewrite Hnever in Hafter; done].
    destruct (truthy v) eqn:Hv; [done | rewrite Hempty in Hafter; done].
  - intros [Hk Hv]. rewrite Hsync; simpl.
    eapply copy_loop_completed; [exact E2 | by eapply getItem_Some_keys |].
    unfold copied. split_and!;
      [apply truthy_getKey | by rewrite persistent_key_getKey | done | done].
Qed.

(** C6, as amended.  [set(key, value)] returns [false] exactly when
    [JSON.stringify] throws, the write to [localStorage] throws, or the write
    to [sessionStorage] throws.  In the first two cases both areas are as
    they were; in the third [localStorage] has taken the new value and
    [sessionStorage] is as it was. *)
Theorem set_returns_false (value : Type) (JSON_stringify : value -> option string)
    (key : string) (v : value) (b : Browser) :
  let prefixedKey := getKey key in
  let result := set quota value JSON_stringify key v b in
  (result.1 = false ↔
     JSON_stringify v = None
     ∨ ∃ s, JSON_stringify v = Some s
            ∧ (quota InLocal (localStorage b) prefixedKey s = false
               ∨ quota InSession (sessionStorage b) prefixedKey s = false))
  ∧ (JSON_stringify v = None → result = (false, b))
  ∧ (∀ s, JSON_stringify v = Some s →
          quota InLocal (localStorage b) prefixedKey s = false →
          result = (false, b))
  ∧ (∀ s, JSON_stringify v = Some s →
          quota InLocal (localStorage b) prefixedKey s = true →
          quota InSession (sessionStorage b) prefixedKey s = false →
          result = (false, {| localStorage := put prefixedKey s (localStorage b);
                              sessionStorage := sessionStorage b |})).
Proof.
  intros prefixedKey result. subst result prefixedKey.
  unfold set, setItem. destruct b as [l s]; simpl.
  destruct (JSON_stringify v) as [str|] eqn:Hstr;
    [ destruct (quota InLocal l (getKey key) str) eqn:Hl; simpl;
      [ destruct (quota InSession s (getKey key) str) eqn:Hs; simpl | ] | ];
    (split_and!; [split | ..]); intros; simplify_eq; try done; try congruence.
  - destruct H as [?|(s' & ? & [?|?])]; simplify_eq; congruence.
  - right. exists str. auto.
  - right. exists str. auto.
  - by left.
Qed.

End StorageManagerClaims.

(** *** [sync] and [set] on sample areas *)

Section StorageSamples.
Import WebStorage StorageManager.

Lemma sync_session_only_entry_witness :
  getItem (getKey "users") (sessionStorage users_in_session_only) = Some "{}"
  ∧ getItem (getKey "users") (localStorage users_in_session_only) = None
  ∧ getItem (getKey "users") (localStorage (sync unlimited users_in_session_only))
    = Some "{}".
Proof.
  split; [reflexivity |]. split; [reflexivity |].
  destruct (sync_session_only_entry unlimited users_in_session_only "users" "{}"
              eq_refl eq_refl) as (_ & _ & H & _).
  apply H; [reflexivity | split; reflexivity].
Defined.

(** C7 as stated fails.  A persistent entry whose value is the empty string
    and that only [sessionStorage] has is not copied by
    [StorageManager.sync]; and [sync] of the browser helper [storage], which
    has no allowlist, copies an entry that is not persistent. *)
Lemma sync_copy_rule_counterexample :
  (let b := {| localStorage := []; sessionStorage := [("pointmoney_users", "")] |} in
   isPersistentKey "users" = true
   ∧ has_thrown (sync_body unlimited b) = false
   ∧ getItem "pointmoney_users" (sessionStorage b) = Some ""
   ∧ getItem "pointmoney_users" (localStorage b) = None
   ∧ getItem "pointmoney_users" (localStorage (sync unlimited b)) = None)
  ∧
  (let b := {| localStorage := []; sessionStorage := [("pointmoney_tempFlag", "1")] |} in
   isPersistentKey "tempFlag" = false
   ∧ getItem "pointmoney_tempFlag" (localStorage b) = None
   ∧ getItem "pointmoney_tempFlag" (localStorage (BrowserStorage.sync unlimited b).2)
     = Some "1").
Proof. vm_compute. repeat split. Qed.

Lemma set_returns_false_witness :
  (set session_full string stringify_string "users" "{}"
       {| localStorage := []; sessionStorage := [] |}).1 = false.
Proof.
  destruct (set_returns_false session_full string stringify_string "users" "{}"
              {| localStorage := []; sessionStorage := [] |}) as (H & _).
  apply H. right. exists "{}". split; [reflexivity | right; reflexivity].
Defined.

(** C6 as stated fails.  With [sessionStorage] full, [JSON.stringify] and
    the write to [localStorage] succeed, yet [set] returns [false], and
    [localStorage] has been written. *)
Lemma set_session_failure_counterexample :
  let b := {| localStorage := []; sessionStorage := [] |} in
  let result := set session_full string stringify_string "users" "{}" b in
  stringify_string "{}" = Some "{}"
  ∧ setItem session_full InLocal (getKey "users") "{}" (localStorage b)
    = Some [("pointmoney_users", "{}")]
  ∧ result.1 = false
  ∧ localStorage result.2 = [("pointmoney_users", "{}")]
  ∧ result.2 ≠ b.
Proof. vm_compute. repeat split. discriminate. Qed.

End StorageSamples.

(** ** Numbers and the members of a directory *)

Section JSFacts.
Import JS.

(** Up to 2^53 every integer is a double. *)
Lemma to_double_exact (n : Z) :
  (Z.abs n ≤ 2 ^ 53)%Z → to_double n = Int n.
Proof.
  intros H. unfold to_double. by destruct (Z.leb_spec (Z.abs n) (2 ^ 53)); [|lia].
Qed.

Lemma to_double_safe (n : Z) : safe_integer n → to_double n = Int n.
Proof. unfold safe_integer. intros H. apply to_double_exact. lia. Qed.

(** A significand of 53 bits with an exponent is a double. *)
Lemma to_double_significand (s q e : Z) :
  (s = 1 ∨ s = -1)%Z → (2 ^ 52 ≤ q < 2 ^ 53)%Z → (0 ≤ e)%Z →
  (q * 2 ^ e < 2 ^ 1024)%Z →
  to_double (s * (q * 2 ^ e)) = Int (s * (q * 2 ^ e)).
Proof.
  intros Hs Hq He Hfinite.
  assert (Hpow : (0 < 2 ^ e)%Z) by (apply Z.pow_pos_nonneg; lia).
  assert (Ha : Z.abs (s * (q * 2 ^ e)) = (q * 2 ^ e)%Z)
    by (destruct Hs as [-> | ->]; nia).
  assert (Hsgn : Z.sgn (s * (q * 2 ^ e)) = s).
  { destruct Hs as [-> | ->].
    - apply Z.sgn_pos. nia.
    - apply Z.sgn_neg. nia. }
  unfold to_double. rewrite Ha.
  destruct (Z.leb_spec (q * 2 ^ e) (2 ^ 53)) as [|Hbig]; [done |].
  assert (Hlog : Z.log2 (q * 2 ^ e) = (52 + e)%Z).
  { apply Z.log2_unique; [lia |].
    replace (Z.succ (52 + e)) with (53 + e)%Z by lia.
    rewrite !Z.pow_add_r by lia. split.
    - apply Z.mul_le_mono_nonneg_r; lia.
    - apply Z.mul_lt_mono_pos_r; lia. }
  rewrite Hlog. replace (52 + e - 52)%Z with e by lia.
  rewrite Z.div_mul, Z.mod_mul by lia.
  destruct (Z.ltb_spec (2 * 0) (2 ^ e)) as [_|]; [|lia].
  destruct (Z.leb_spec (2 ^ 1024) (q * 2 ^ e)); [lia |].
  by rewrite Hsgn.
Qed.

(** Rounding gives a double: rounding it again changes nothing. *)
Lemma to_double_idempotent (n m : Z) :
  to_double n = Int m → to_double m = Int m.
Proof.
  unfold to_double at 1.
  destruct (Z.leb_spec (Z.abs n) (2 ^ 53)) as [Hsmall|Hbig].
  { intros [= <-]. by apply to_double_exact. }
  set (a := Z.abs n) in *. set (e := (Z.log2 a - 52)%Z).
  assert (Hlog : (53 ≤ Z.log2 a)%Z).
  { change 53%Z with (Z.log2 (2 ^ 53)). apply Z.log2_le_mono. lia. }
  assert (He : (1 ≤ e)%Z) by (subst e; lia).
  pose proof (Z.log2_spec a ltac:(lia)) as Hspec.
  replace (Z.log2 a) with (52 + e)%Z in Hspec by (subst e; lia).
  replace (Z.succ (52 + e)) with (53 + e)%Z in Hspec by lia.
  rewrite !Z.pow_add_r in Hspec by lia.
  assert (Hpow : (0 < 2 ^ e)%Z) by (apply Z.pow_pos_nonneg; lia).
  pose proof (Z.div_mod a (2 ^ e) ltac:(lia)) as Hdiv.
  pose proof (Z.mod_pos_bound a (2 ^ e) Hpow) as Hmod.
  set (q := (a / 2 ^ e)%Z) in *. set (r := (a mod 2 ^ e)%Z) in *.
  assert (Hq : (2 ^ 52 ≤ q < 2 ^ 53)%Z) by nia.
  set (q' := if (2 * r <? 2 ^ e)%Z then q else _).
  assert (Hq' : q' = q ∨ q' = (q + 1)%Z).
  { subst q'. destruct (2 * r <? 2 ^ e)%Z; [by left |].
    destruct (2 ^ e <? 2 * r)%Z; [by right |].
    destruct (Z.even q); [by left | by right]. }
  destruct (Z.leb_spec (2 ^ 1024) (q' * 2 ^ e)) as [|Hfinite]; [done |].
  intros [= <-].
  assert (Hs : Z.sgn n = 1%Z ∨ Z.sgn n = (-1)%Z).
  { destruct (Z.sgn_spec n) as [[? ->]|[[? ->]|[? ->]]];
      [by left | subst a; lia | by right]. }
  destruct (Z.eq_dec q' (2 ^ 53)%Z) as [Hedge|Hin].
  - replace (q' * 2 ^ e)%Z with (2 ^ 52 * 2 ^ (e + 1))%Z in *
      by (rewrite Hedge, Z.pow_add_r by lia; lia).
    apply to_double_significand; [done | lia | lia | done].
  - apply to_double_significand; [done | lia | lia | done].
Qed.

Lemma to_double_is_double (n : Z) : is_double (to_double n).
Proof.
  unfold is_double. destruct (to_double n) as [m| |s] eqn:H; [|done..].
  by apply (to_double_idempotent n).
Qed.

(** A sum is a double, and adding 0 to a double gives the double. *)
Lemma add_is_double (a b : number) : is_double (add a b).
Proof.
  destruct a as [x| |s], b as [y| |s']; simpl; try done.
  - apply to_double_is_double.
  - by destruct (Bool.eqb s s').
Qed.

Lemma add_zero (a : number) : is_double a → add a (Int 0) = a.
Proof.
  destruct a as [x| |s]; simpl; [|done..].
  intros H. by rewrite Z.add_0_r.
Qed.

(** On safe integers with a safe result, [+] and [-] are those of the
    integers. *)
Lemma add_exact (x y : Z) :
  safe_integer (x + y) → add (Int x) (Int y) = Int (x + y).
Proof. apply to_double_safe. Qed.

Lemma sub_exact (x y : Z) :
  safe_integer (x - y) → sub (Int x) (Int y) = Int (x - y).
Proof. apply to_double_safe. Qed.

Lemma lookup_member_own (users : gmap string obj) (k : string) (row : obj) :
  lookup_member users k = Some (Own row) ↔ users !! k = Some row.
Proof.
  unfold lookup_member. destruct (users !! k) as [r|].
  - split; congruence.
  - split; [|done]. by destruct (bool_decide (k ∈ Object_prototype)).
Qed.

Lemma lookup_member_inherited (users : gmap string obj) (k name : string) :
  lookup_member users k = Some (Inherited name)
  ↔ users !! k = None ∧ k ∈ Object_prototype ∧ name = k.
Proof.
  unfold lookup_member. destruct (users !! k) as [r|].
  - split; [done | by intros [? _]].
  - destruct (bool_decide_reflect (k ∈ Object_prototype)).
    + split; [by intros [= <-] | by intros (_ & _ & ->)].
    + split; [done | by intros (_ & ? & _)].
Qed.

Lemma lookup_member_none (users : gmap string obj) (k : string) :
  lookup_member users k = None ↔ users !! k = None ∧ k ∉ Object_prototype.
Proof.
  unfold lookup_member. destruct (users !! k) as [r|].
  - split; [done | by intros [? _]].
  - destruct (bool_decide_reflect (k ∈ Object_prototype)).
    + split; [done | by intros [_ ?]].
    + by split.
Qed.

End JSFacts.

(** ** The store *)

Section AuthStoreFacts.
Import JS AuthStore.

(** What one [set] followed by [saveUser] does to the world. *)
Lemma set_then_save (f : AuthState -> AuthState) (u : obj) (w : World) :
  (set f >> perform (saveUser u)) w =
  (Returns tt,
   {| store := f (store w);
      calls := calls w ++ [storage_set storeName (f (store w)); saveUser u] |}).
Proof.
  unfold bind, set, perform; simpl. by rewrite <- app_assoc.
Qed.

(** C9. With nobody signed in, [updateProfile], [updateAvatar] and
    [updatePoints] return without an error and leave the whole world as it
    is: the state of the store, and the calls made to [storage] and to
    [authManager] (none is added, so nothing is written). *)
Theorem signed_out_updates_do_nothing (w : World) (updates : obj)
    (avatarUrl : string) (points : number) :
  user (store w) = None →
  updateProfile updates w = (Returns tt, w)
  ∧ updateAvatar avatarUrl w = (Returns tt, w)
  ∧ updatePoints points w = (Returns tt, w).
Proof.
  intros Hnone.
  unfold updateProfile, updateAvatar, updatePoints, bind, get; simpl.
  by rewrite Hnone.
Qed.

Lemma registerUser_unfold (userData : obj) (now : string) (w : World) :
  let newUser := new_account userData now in
  let s := {| user := user (store w);
              users := <[to_key (prop userData "loginId") := newUser]> (users (store w));
              isAuthenticated := isAuthenticated (store w);
              customIcon := customIcon (store w) |} in
  registerUser userData now w =
  (Returns newUser,
   {| store := s;
      calls := calls w ++ [addCredential (prop userData "loginId") (prop userData "password");
                           saveUser newUser;
                           storage_set storeName s] |}).
Proof.
  unfold registerUser, bind, perform, set, ret; simpl.
  rewrite <- !app_assoc; simpl.
  replace (prop (<["role":=Str "worker"]> _) "id") with (prop userData "loginId");
    [done |].
  unfold prop. by simplify_map_eq.
Qed.

Lemma new_account_no_password (userData : obj) (now : string) :
  new_account userData now !! "password" = None.
Proof. unfold new_account. by simplify_map_eq. Qed.

(** C10. Whatever the registration input, the account that [registerUser]
    returns, inserts into the directory and hands to [saveUser] has no
    [password] property; the password goes to [addCredential] and nowhere
    else, so a directory without passwords stays without them. *)
Theorem registerUser_strips_password (userData : obj) (now : string) (w : World) :
  ∃ newUser,
    (registerUser userData now w).1 = Returns newUser
    ∧ newUser !! "password" = None
    ∧ users (store (registerUser userData now w).2)
        !! to_key (prop userData "loginId") = Some newUser
    ∧ calls (registerUser userData now w).2 =
        calls w ++ [addCredential (prop userData "loginId") (prop userData "password");
                    saveUser newUser;
                    storage_set storeName (store (registerUser userData now w).2)]
    ∧ (no_password_stored (store w) →
       no_password_stored (store (registerUser userData now w).2)).
Proof.
  exists (new_account userData now).
  pose proof (registerUser_unfold userData now w) as H. cbv zeta in H.
  rewrite H; simpl. split_and!; try done.
  - apply new_account_no_password.
  - apply lookup_insert_eq.
  - intros Hno. apply map_Forall_insert_2; [apply new_account_no_password | done].
Qed.

(** C4, as amended.  [registerUser] has no check for an id that is taken
    and no failure: for a candidate whose id the directory already has, it
    returns the new account, hands the credential to [addCredential],
    persists the new account and puts it in the place of the old row, with
    [points] 0, [totalEarned] 0 and status [active]; the other rows, the
    active user and [isAuthenticated] stay as they are. *)
Theorem registerUser_existing_id (userData : obj) (now id : string) (old : obj)
    (w : World) :
  prop userData "loginId" = Str id →
  users (store w) !! id = Some old →
  let after := registerUser userData now w in
  ∃ newUser,
    after.1 = Returns newUser
    ∧ users (store after.2) !! id = Some newUser
    ∧ newUser !! "id" = Some (Str id)
    ∧ newUser !! "points" = Some (Num (Int 0))
    ∧ newUser !! "totalEarned" = Some (Num (Int 0))
    ∧ newUser !! "status" = Some (Str "active")
    ∧ (∀ id', id' ≠ id → users (store after.2) !! id' = users (store w) !! id')
    ∧ user (store after.2) = user (store w)
    ∧ isAuthenticated (store after.2) = isAuthenticated (store w)
    ∧ calls after.2 =
        calls w ++ [addCredential (Str id) (prop userData "password");
                    saveUser newUser;
                    storage_set storeName (store after.2)].
Proof.
  intros Hid Hold after. subst after.
  exists (new_account userData now).
  pose proof (registerUser_unfold userData now w) as H. cbv zeta in H.
  rewrite H, Hid; simpl. unfold new_account. rewrite Hid.
  split_and!; try done; try by simplify_map_eq.
  intros id' Hne. by rewrite lookup_insert_ne.
Qed.

Lemma login_unfold (userData : obj) (now : string) (w : World) :
  let id := to_key (prop userData "id") in
  let updatedUser := <["lastLogin" := Str now]> (spread (users (store w) !! id)) in
  let s := {| user := Some updatedUser;
              users := <[id := updatedUser]> (users (store w));
              isAuthenticated := true;
              customIcon := customIcon (store w) |} in
  login userData now w =
  (Returns tt,
   {| store := s; calls := calls w ++ [storage_set storeName s; saveUser updatedUser] |}).
Proof. unfold login, bind, get, set, perform; simpl. by rewrite <- app_assoc. Qed.

(** C5, as amended.  [login] has no check that the id is in the directory
    and no failure: for every id it returns, and leaves [isAuthenticated]
    set.  For an id that the directory has, the row gets the new
    [lastLogin] and keeps its other properties, it is stored in the
    directory, handed to [saveUser], and becomes the active user, while the
    other rows stay as they are.  For an id that the directory does not
    have, the directory gets a row for it all the same: a row that has the
    [lastLogin] and nothing else is stored under the id, handed to
    [saveUser], and becomes the active user. *)
Theorem login_behaviour (userData : obj) (now : string) (w : World) :
  let id := to_key (prop userData "id") in
  let after := login userData now w in
  after.1 = Returns tt
  ∧ isAuthenticated (store after.2) = true
  ∧ (∀ id', id' ≠ id → users (store after.2) !! id' = users (store w) !! id')
  ∧ (∀ old, users (store w) !! id = Some old →
       ∃ row,
         users (store after.2) !! id = Some row
         ∧ user (store after.2) = Some row
         ∧ row !! "lastLogin" = Some (Str now)
         ∧ (∀ k, k ≠ "lastLogin" → row !! k = old !! k)
         ∧ calls after.2 =
             calls w ++ [storage_set storeName (store after.2); saveUser row])
  ∧ (users (store w) !! id = None →
       users (store after.2) !! id = Some {[ "lastLogin" := Str now ]}
       ∧ user (store after.2) = Some {[ "lastLogin" := Str now ]}
       ∧ calls after.2 =
           calls w ++ [storage_set storeName (store after.2);
                       saveUser {[ "lastLogin" := Str now ]}]).
Proof.
  intros id after. subst after id.
  pose proof (login_unfold userData now w) as H. cbv zeta in H.
  rewrite H; simpl. split_and!; try done.
  - intros id' Hne. by rewrite lookup_insert_ne.
  - intros old Hold. rewrite Hold; simpl.
    eexists. split_and!; [apply lookup_insert_eq | done | by simplify_map_eq | | done].
    intros k Hk. by rewrite lookup_insert_ne.
  - intros Hnone. rewrite Hnone; simpl. rewrite insert_empty.
    split_and!; [apply lookup_insert_eq | done | done].
Qed.

Lemma updateUserPoints_found (userId : string) (points : number)
    (found : member) (w : World) :
  lookup_member (users (store w)) userId = Some found →
  let currentUser := properties found in
  let updatedUser :=
    <["totalEarned" :=
        plus (prop currentUser "totalEarned")
             (if gt points (to_number (prop currentUser "points"))
              then sub points (to_number (prop currentUser "points"))
              else Int 0)]>
      (<["points" := Num (Math_max (Int 0) points)]> currentUser) in
  let s := {| user := match user (store w) with
                      | Some u => if strict_eq_string (prop u "id") userId
                                  then Some updatedUser else user (store w)
                      | None => user (store w)
                      end;
              users := <[userId := updatedUser]> (users (store w));
              isAuthenticated := isAuthenticated (store w);
              customIcon := customIcon (store w) |} in
  updateUserPoints userId points w =
  (Returns tt,
   {| store := s; calls := calls w ++ [storage_set storeName s; saveUser updatedUser] |}).
Proof.
  intros Hfound. unfold updateUserPoints; simpl.
  unfold bind at 1. unfold get at 1. simpl. rewrite Hfound.
  by rewrite set_then_save.
Qed.

Lemma updateUserPoints_unfold (userId : string) (points : number)
    (currentUser : obj) (w : World) :
  users (store w) !! userId = Some currentUser →
  let updatedUser :=
    <["totalEarned" :=
        plus (prop currentUser "totalEarned")
             (if gt points (to_number (prop currentUser "points"))
              then sub points (to_number (prop currentUser "points"))
              else Int 0)]>
      (<["points" := Num (Math_max (Int 0) points)]> currentUser) in
  let s := {| user := match user (store w) with
                      | Some u => if strict_eq_string (prop u "id") userId
                                  then Some updatedUser else user (store w)
                      | None => user (store w)
                      end;
              users := <[userId := updatedUser]> (users (store w));
              isAuthenticated := isAuthenticated (store w);
              customIcon := customIcon (store w) |} in
  updateUserPoints userId points w =
  (Returns tt,
   {| store := s; calls := calls w ++ [storage_set storeName s; saveUser updatedUser] |}).
Proof.
  intros Hrow. apply lookup_member_own in Hrow.
  exact (updateUserPoints_found userId points (Own currentUser) w Hrow).
Qed.

Lemma updateUserPoints_absent (userId : string) (points : number) (w : World) :
  lookup_member (users (store w)) userId = None →
  updateUserPoints userId points w = (Returns tt, w).
Proof. intros H. unfold updateUserPoints, bind, get; simpl. by rewrite H. Qed.

(** C3, as amended.  Numbers are doubles, and a sum of doubles is exact
    only as far as the safe integers go.  For an id that the directory
    has, with a balance that is a non-negative integer and a [totalEarned]
    that is a safe integer, and for every safe integer [amount],
    [updateUserPoints(id, amount)] sets [points] to
    [clamped = max(0, amount)]; it adds [clamped - balance] to
    [totalEarned] exactly when [clamped > balance], provided that the sum
    is a safe integer as well, and leaves [totalEarned] as it is otherwise;
    the other properties of the row and the other rows stay as they are,
    and the new row is handed to [saveUser]. *)
Theorem updateUserPoints_ledger (w : World) (userId : string) (row : obj)
    (amount balance earned : Z) :
  users (store w) !! userId = Some row →
  row !! "points" = Some (Num (Int balance)) →
  row !! "totalEarned" = Some (Num (Int earned)) →
  (0 ≤ balance)%Z →
  safe_integer amount →
  safe_integer earned →
  ((balance < Z.max 0 amount)%Z →
   safe_integer (earned + (Z.max 0 amount - balance))) →
  let clamped := Z.max 0 amount in
  let after := updateUserPoints userId (Int amount) w in
  after.1 = Returns tt
  ∧ ∃ row',
      users (store after.2) !! userId = Some row'
      ∧ row' !! "points" = Some (Num (Int clamped))
      ∧ row' !! "totalEarned" =
          Some (Num (Int (if (balance <? clamped)%Z
                          then earned + (clamped - balance) else earned)))
      ∧ (∀ k, k ≠ "points" → k ≠ "totalEarned" → row' !! k = row !! k)
      ∧ (∀ id, id ≠ userId → users (store after.2) !! id = users (store w) !! id)
      ∧ calls after.2 =
          calls w ++ [storage_set storeName (store after.2); saveUser row'].
Proof.
  intros Hrow Hpoints Hearned Hbalance Hamount Hsafe Hsum clamped after.
  subst after.
  pose proof (updateUserPoints_unfold userId (Int amount) row w Hrow) as H.
  cbv zeta in H. rewrite H. cbn [fst snd store users calls]. split; [done |].
  eexists. split_and!; [apply lookup_insert_eq | by simplify_map_eq | | | | done].
  - assert (Hp : prop row "points" = Num (Int balance))
      by (unfold prop; by rewrite Hpoints).
    assert (He : prop row "totalEarned" = Num (Int earned))
      by (unfold prop; by rewrite Hearned).
    rewrite lookup_insert_eq, Hp, He. cbn [to_number plus gt]. subst clamped.
    destruct (Z.ltb_spec balance amount), (Z.ltb_spec balance (Z.max 0 amount));
      try lia.
    + rewrite sub_exact by (unfold safe_integer in *; lia).
      rewrite add_exact by (replace amount with (Z.max 0 amount) by lia; auto).
      repeat f_equal; lia.
    + rewrite add_exact by by rewrite Z.add_0_r.
      by rewrite Z.add_0_r.
  - intros k Hk1 Hk2. by rewrite !lookup_insert_ne.
  - intros id Hne. by rewrite lookup_insert_ne.
Qed.

Lemma balance_nonneg_points (o o' : obj) :
  o' !! "points" = o !! "points" → balance_nonneg o' = balance_nonneg o.
Proof. unfold balance_nonneg. by intros ->. Qed.

Lemma updateProfile_unfold (updates u : obj) (w : World) :
  user (store w) = Some u →
  let id := to_key (prop u "id") in
  let updatedUser := updates ∪ spread (users (store w) !! id) in
  let s := {| user := Some updatedUser;
              users := <[id := updatedUser]> (users (store w));
              isAuthenticated := isAuthenticated (store w);
              customIcon := customIcon (store w) |} in
  updateProfile updates w =
  (Returns tt,
   {| store := s; calls := calls w ++ [storage_set storeName s; saveUser updatedUser] |}).
Proof.
  intros Hu. unfold updateProfile.
  unfold bind at 1. unfold get at 1. simpl. rewrite Hu.
  by rewrite set_then_save.
Qed.

Lemma updateAvatar_unfold (avatarUrl : string) (u : obj) (w : World) :
  user (store w) = Some u →
  let id := to_key (prop u "id") in
  let updatedUser := <["avatarUrl" := Str avatarUrl]> (spread (users (store w) !! id)) in
  let s := {| user := Some updatedUser;
              users := <[id := updatedUser]> (users (store w));
              isAuthenticated := isAuthenticated (store w);
              customIcon := customIcon (store w) |} in
  updateAvatar avatarUrl w =
  (Returns tt,
   {| store := s; calls := calls w ++ [storage_set storeName s; saveUser updatedUser] |}).
Proof.
  intros Hu. unfold updateAvatar.
  unfold bind at 1. unfold get at 1. simpl. rewrite Hu.
  by rewrite set_then_save.
Qed.

Lemma updatePoints_found (points : number) (u : obj) (found : member) (w : World) :
  user (store w) = Some u →
  let id := to_key (prop u "id") in
  lookup_member (users (store w)) id = Some found →
  let updatedUser :=
    <["totalEarned" := plus (prop (properties found) "totalEarned") points]>
      (<["points" := Num points]> (properties found)) in
  let s := {| user := Some updatedUser;
              users := <[id := updatedUser]> (users (store w));
              isAuthenticated := isAuthenticated (store w);
              customIcon := customIcon (store w) |} in
  updatePoints points w =
  (Returns tt,
   {| store := s; calls := calls w ++ [storage_set storeName s; saveUser updatedUser] |}).
Proof.
  intros Hu id Hfound. subst id. unfold updatePoints.
  unfold bind at 1. unfold get at 1. simpl. rewrite Hu, Hfound; simpl.
  by rewrite set_then_save.
Qed.

Lemma updatePoints_unfold (points : number) (u row : obj) (w : World) :
  user (store w) = Some u →
  let id := to_key (prop u "id") in
  users (store w) !! id = Some row →
  let updatedUser :=
    <["totalEarned" := plus (prop row "totalEarned") points]>
      (<["points" := Num points]> row) in
  let s := {| user := Some updatedUser;
              users := <[id := updatedUser]> (users (store w));
              isAuthenticated := isAuthenticated (store w);
              customIcon := customIcon (store w) |} in
  updatePoints points w =
  (Returns tt,
   {| store := s; calls := calls w ++ [storage_set storeName s; saveUser updatedUser] |}).
Proof.
  intros Hu id Hrow. subst id. apply lookup_member_own in Hrow.
  exact (updatePoints_found points u (Own row) w Hu Hrow).
Qed.

Lemma updatePoints_no_row (points : number) (u : obj) (w : World) :
  user (store w) = Some u →
  lookup_member (users (store w)) (to_key (prop u "id")) = None →
  updatePoints points w = (Throws TypeError, w).
Proof. intros Hu Hrow. unfold updatePoints, bind, get; simpl. by rewrite Hu, Hrow. Qed.

(** What [updatePoints] does to the ledger of the active user: [points]
    becomes the argument itself, and the argument is added to
    [totalEarned]. *)
Lemma updatePoints_ledger (w : World) (u row : obj) (points earned : Z) :
  user (store w) = Some u →
  users (store w) !! to_key (prop u "id") = Some row →
  row !! "totalEarned" = Some (Num (Int earned)) →
  ∃ row',
    users (store (updatePoints (Int points) w).2) !! to_key (prop u "id") = Some row'
    ∧ row' !! "points" = Some (Num (Int points))
    ∧ row' !! "totalEarned" = Some (Num (add (Int earned) (Int points))).
Proof.
  intros Hu Hrow Hearned.
  pose proof (updatePoints_unfold (Int points) u row w Hu Hrow) as H.
  cbv zeta in H. rewrite H; simpl.
  eexists. split_and!; [apply lookup_insert_eq | by simplify_map_eq |].
  rewrite lookup_insert_eq. unfold prop. by rewrite Hearned.
Qed.

(** C1, as amended.  Every account keeps a balance that is an integer and
    not negative through [registerUser], through [updateUserPoints] with any
    integer, through [login] of an id that the directory has, through
    [updateAvatar] when the active user has a row in the directory, and
    through [updateProfile] with updates whose [points] is an integer that
    is not negative, or with updates without [points] when the active user
    has a row in the directory.  ([updatePoints] is not among these
    operations.) *)
Theorem ledger_balances_preserved (o : operation) (w : World) :
  balances_nonneg (store w) →
  keeps_balances o (store w) →
  balances_nonneg (store (run o w).2).
Proof.
  unfold balances_nonneg. intros Hinv Hkeeps.
  destruct o as [userData now|userData now|updates|avatarUrl|userId points];
    unfold run, keeps_balances in *.
  - (* registerUser *)
    unfold bind.
    pose proof (registerUser_unfold userData now w) as H. cbv zeta in H.
    rewrite H; simpl.
    apply map_Forall_insert_2; [|done].
    unfold balance_nonneg, new_account. by simplify_map_eq.
  - (* login *)
    destruct Hkeeps as [old Hold].
    pose proof (login_unfold userData now w) as H. cbv zeta in H.
    rewrite H; simpl. rewrite Hold; simpl.
    apply map_Forall_insert_2; [|done].
    rewrite (balance_nonneg_points old); [by eapply Hinv |].
    by rewrite lookup_insert_ne.
  - (* updateProfile *)
    unfold active_in_directory in Hkeeps.
    destruct (user (store w)) as [u|] eqn:Hu.
    + pose proof (updateProfile_unfold updates u w Hu) as H. cbv zeta in H.
      rewrite H; simpl.
      apply map_Forall_insert_2; [|done].
      destruct Hkeeps as [Hupdates|[Hnone [old Hold]]].
      * rewrite (balance_nonneg_points updates); [done |].
        unfold balance_nonneg in Hupdates.
        destruct (updates !! "points") as [v|] eqn:Hv; [|done].
        by apply lookup_union_Some_l.
      * rewrite Hold; simpl.
        rewrite (balance_nonneg_points old); [by eapply Hinv |].
        by rewrite lookup_union_r.
    + unfold updateProfile, bind, get; simpl. by rewrite Hu.
  - (* updateAvatar *)
    unfold active_in_directory in Hkeeps.
    destruct (user (store w)) as [u|] eqn:Hu.
    + destruct Hkeeps as [old Hold].
      pose proof (updateAvatar_unfold avatarUrl u w Hu) as H. cbv zeta in H.
      rewrite H; simpl. rewrite Hold; simpl.
      apply map_Forall_insert_2; [|done].
      rewrite (balance_nonneg_points old); [by eapply Hinv |].
      by rewrite lookup_insert_ne.
    + unfold updateAvatar, bind, get; simpl. by rewrite Hu.
  - (* updateUserPoints *)
    destruct (lookup_member (users (store w)) userId) as [found|] eqn:Hfound.
    + pose proof (updateUserPoints_found userId (Int points) found w Hfound) as H.
      cbv zeta in H. rewrite H. cbn [snd store users].
      apply map_Forall_insert_2; [|done].
      unfold balance_nonneg. rewrite lookup_insert_ne, lookup_insert_eq by done.
      apply Z.leb_le. simpl. lia.
    + by rewrite updateUserPoints_absent.
Qed.

End AuthStoreFacts.

(** *** The store on sample worlds *)

Section AuthStoreSamples.
Import JS AuthStore.

Lemma signed_out_updates_do_nothing_witness :
  let w := signed_out "u1" (account "u1" 10 10) in
  user (store w) = None
  ∧ updateProfile {[ "name" := Str "A" ]} w = (Returns tt, w)
  ∧ updateAvatar "a.png" w = (Returns tt, w)
  ∧ updatePoints (Int 5) w = (Returns tt, w).
Proof.
  split; [reflexivity |].
  apply (signed_out_updates_do_nothing (signed_out "u1" (account "u1" 10 10))).
  reflexivity.
Defined.

Lemma registerUser_strips_password_witness :
  let w := signed_out "u1" (account "u1" 10 10) in
  let candidate : obj := {[ "loginId" := Str "u2"; "password" := Str "secret" ]} in
  no_password_stored (store w)
  ∧ no_password_stored (store (registerUser candidate "2024-02-02T00:00:00.000Z" w).2).
Proof.
  assert (H : no_password_stored (store (signed_out "u1" (account "u1" 10 10)))).
  { apply map_Forall_singleton. reflexivity. }
  split; [exact H |].
  destruct (registerUser_strips_password
              {[ "loginId" := Str "u2"; "password" := Str "secret" ]}
              "2024-02-02T00:00:00.000Z" (signed_out "u1" (account "u1" 10 10)))
    as (newUser & _ & _ & _ & _ & Hkeep).
  exact (Hkeep H).
Defined.

Lemma updateUserPoints_ledger_witness :
  let w := signed_out "u1" (account "u1" 40 100) in
  ∃ row',
    users (store (updateUserPoints "u1" (Int 90) w).2) !! "u1" = Some row'
    ∧ row' !! "points" = Some (Num (Int 90))
    ∧ row' !! "totalEarned" = Some (Num (Int 150)).
Proof.
  destruct (updateUserPoints_ledger (signed_out "u1" (account "u1" 40 100)) "u1"
              (account "u1" 40 100) 90 40 100 eq_refl eq_refl eq_refl)
    as (_ & row' & H1 & H2 & H3 & _);
    [lia | unfold safe_integer; lia | unfold safe_integer; lia
    | intros _; unfold safe_integer; lia |].
  exists row'. split; [exact H1 |]. split; [exact H2 | exact H3].
Defined.

(** C3 as stated fails.  The account has a balance of 0 and a
    [totalEarned] of 2^53; [updateUserPoints] with the amount 1 sets the
    balance to 1, and [totalEarned] is 2^53 still, not 2^53 + 1: the sum
    is rounded to the nearest double. *)
Lemma updateUserPoints_rounding_counterexample :
  let w := signed_out "u1" (account "u1" 0 9007199254740992) in
  let after := updateUserPoints "u1" (Int 1) w in
  users (store w) !! "u1" ≫= (.!! "points") = Some (Num (Int 0))
  ∧ users (store w) !! "u1" ≫= (.!! "totalEarned") = Some (Num (Int (2 ^ 53)))
  ∧ after.1 = Returns tt
  ∧ users (store after.2) !! "u1" ≫= (.!! "points") = Some (Num (Int (Z.max 0 1)))
  ∧ users (store after.2) !! "u1" ≫= (.!! "totalEarned") = Some (Num (Int (2 ^ 53)))
  ∧ users (store after.2) !! "u1" ≫= (.!! "totalEarned")
    ≠ Some (Num (Int (2 ^ 53 + (Z.max 0 1 - 0)))).
Proof. vm_compute. split_and!; try reflexivity. discriminate. Qed.

(** The scenario of the specification: [register("u1")], then the balance
    is set to 100, to 40 and to 90. *)
Example ledger_scenario :
  let ledger (w : World) :=
    (users (store w) !! "u1" ≫= (.!! "points"),
     users (store w) !! "u1" ≫= (.!! "totalEarned")) in
  let w0 := (registerUser {[ "loginId" := Str "u1"; "password" := Str "pw" ]}
               "2024-01-01T00:00:00.000Z" (initial ∅)).2 in
  let w1 := (updateUserPoints "u1" (Int 100) w0).2 in
  let w2 := (updateUserPoints "u1" (Int 40) w1).2 in
  let w3 := (updateUserPoints "u1" (Int 90) w2).2 in
  ledger w0 = (Some (Num (Int 0)), Some (Num (Int 0)))
  ∧ ledger w1 = (Some (Num (Int 100)), Some (Num (Int 100)))
  ∧ ledger w2 = (Some (Num (Int 40)), Some (Num (Int 100)))
  ∧ ledger w3 = (Some (Num (Int 90)), Some (Num (Int 150))).
Proof. vm_compute. repeat split. Qed.

(** C2 on the code.  With an active account whose balance is 10 and whose
    [totalEarned] is 100, [updatePoints(-20)] leaves a balance of -20, not
    of 0; [totalEarned] goes down by 20, to 80. *)
Theorem updatePoints_negative_delta :
  let w := signed_in "u1" (account "u1" 10 100) in
  let after := updatePoints (Int (-20)) w in
  after.1 = Returns tt
  ∧ users (store after.2) !! "u1" ≫= (.!! "points") = Some (Num (Int (-20)))
  ∧ users (store after.2) !! "u1" ≫= (.!! "totalEarned") = Some (Num (Int 80))
  ∧ user (store after.2) ≫= (.!! "points") = Some (Num (Int (-20)))
  ∧ users (store after.2) !! "u1" ≫= (.!! "points") ≠ Some (Num (Int (Z.max 0 (10 + -20)))).
Proof. vm_compute. repeat split. discriminate. Qed.

Lemma ledger_balances_preserved_witness :
  let w := signed_in "u1" (account "u1" 10 100) in
  balances_nonneg (store w)
  ∧ keeps_balances (UpdateUserPoints "u1" (-7)) (store w)
  ∧ balances_nonneg (store (run (UpdateUserPoints "u1" (-7)) w).2).
Proof.
  assert (H : balances_nonneg (store (signed_in "u1" (account "u1" 10 100)))).
  { apply map_Forall_singleton. reflexivity. }
  split; [exact H |]. split; [exact I |].
  exact (ledger_balances_preserved (UpdateUserPoints "u1" (-7))
           (signed_in "u1" (account "u1" 10 100)) H I).
Defined.

(** C1 as stated fails.  [updateProfile] copies the properties of its
    argument into the account of the active user, [points] among them:
    updates with [points: -5] leave a balance of -5. *)
Lemma updateProfile_points_counterexample :
  let w := signed_in "u1" (account "u1" 10 100) in
  let after := updateProfile {[ "points" := Num (Int (-5)) ]} w in
  balances_nonneg (store w)
  ∧ after.1 = Returns tt
  ∧ users (store after.2) !! "u1" ≫= (.!! "points") = Some (Num (Int (-5)))
  ∧ ¬ balances_nonneg (store after.2).
Proof.
  cbv zeta. split_and!.
  - apply map_Forall_singleton. reflexivity.
  - reflexivity.
  - reflexivity.
  - intros H.
    assert (Hrow : ∃ row,
               users (store (updateProfile {[ "points" := Num (Int (-5)) ]}
                               (signed_in "u1" (account "u1" 10 100))).2) !! "u1"
               = Some row ∧ balance_nonneg row = false).
    { eexists. split; reflexivity. }
    destruct Hrow as (row & Hrow & Hneg).
    apply (map_Forall_lookup_1 _ _ _ _ H) in Hrow. congruence.
Qed.

Lemma registerUser_existing_id_witness :
  let w := signed_out "u1" (account "u1" 50 80) in
  let candidate : obj := {[ "loginId" := Str "u1"; "password" := Str "pw" ]} in
  ∃ newUser,
    (registerUser candidate "2024-02-02T00:00:00.000Z" w).1 = Returns newUser
    ∧ users (store (registerUser candidate "2024-02-02T00:00:00.000Z" w).2) !! "u1"
      = Some newUser
    ∧ newUser !! "points" = Some (Num (Int 0)).
Proof.
  destruct (registerUser_existing_id
              {[ "loginId" := Str "u1"; "password" := Str "pw" ]}
              "2024-02-02T00:00:00.000Z" "u1" (account "u1" 50 80)
              (signed_out "u1" (account "u1" 50 80)))
    as (newUser & H1 & H2 & _ & H3 & _); [reflexivity | reflexivity |].
  exists newUser. split; [exact H1 |]. split; [exact H2 | exact H3].
Defined.

(** C4 as stated fails.  The directory has [u1], with a balance of 50;
    [registerUser] for [u1] does not fail, it replaces the row by a new
    account with a balance of 0, and calls [addCredential]. *)
Lemma registerUser_duplicate_counterexample :
  let w := signed_out "u1" (account "u1" 50 80) in
  let candidate : obj := {[ "loginId" := Str "u1"; "password" := Str "pw" ]} in
  let after := registerUser candidate "2024-02-02T00:00:00.000Z" w in
  users (store w) !! "u1" ≫= (.!! "points") = Some (Num (Int 50))
  ∧ (∃ newUser, after.1 = Returns newUser)
  ∧ users (store after.2) !! "u1" ≫= (.!! "points") = Some (Num (Int 0))
  ∧ users (store after.2) ≠ users (store w)
  ∧ In (addCredential (Str "u1") (Str "pw")) (calls after.2)
  ∧ calls w = [].
Proof.
  cbv zeta. split_and!.
  - reflexivity.
  - eexists. reflexivity.
  - reflexivity.
  - intros H.
    apply (f_equal (fun m : gmap string obj => m !! "u1" ≫= (.!! "points"))) in H.
    vm_compute in H. discriminate.
  - left. reflexivity.
  - reflexivity.
Qed.

Lemma login_behaviour_witness :
  let w := signed_out "u1" (account "u1" 50 80) in
  let after := login {[ "id" := Str "u1" ]} "2024-03-03T00:00:00.000Z" w in
  users (store w) !! "u1" = Some (account "u1" 50 80)
  ∧ ∃ row, users (store after.2) !! "u1" = Some row
           ∧ user (store after.2) = Some row
           ∧ row !! "lastLogin" = Some (Str "2024-03-03T00:00:00.000Z").
Proof.
  split; [reflexivity |].
  destruct (login_behaviour {[ "id" := Str "u1" ]} "2024-03-03T00:00:00.000Z"
              (signed_out "u1" (account "u1" 50 80))) as (_ & _ & _ & H & _).
  destruct (H (account "u1" 50 80) eq_refl) as (row & H1 & H2 & H3 & _).
  exists row. split; [exact H1 |]. split; [exact H2 | exact H3].
Defined.

(** C5 as stated fails.  The directory is empty; [login] of [ghost] does
    not fail: it returns, the directory has a row for [ghost] afterwards,
    and [ghost] is the active user. *)
Lemma login_absent_counterexample :
  let w := initial ∅ in
  let after := login {[ "id" := Str "ghost" ]} "2024-03-03T00:00:00.000Z" w in
  users (store w) !! "ghost" = None
  ∧ user (store w) = None
  ∧ after.1 = Returns tt
  ∧ users (store after.2) !! "ghost"
    = Some {[ "lastLogin" := Str "2024-03-03T00:00:00.000Z" ]}
  ∧ user (store after.2) = Some {[ "lastLogin" := Str "2024-03-03T00:00:00.000Z" ]}
  ∧ isAuthenticated (store after.2) = true.
Proof. cbv zeta. split_and!; reflexivity. Qed.

End AuthStoreSamples.

(** * Further properties of the code *)

(** ** Areas as lists without repeated keys *)

Section AreaFacts.
Import WebStorage BrowserHelper.

Lemma keys_put (k v : string) (s : Storage) :
  keys (put k v s) = if bool_decide (k ∈ keys s) then keys s else keys s ++ [k].
Proof.
  induction s as [|[k' v'] s IH]; simpl; [done |].
  destruct (String.eqb_spec k k') as [->|Hne]; simpl.
  - rewrite bool_decide_eq_true_2; [done | by left].
  - rewrite IH. destruct (bool_decide (k ∈ keys s)) eqn:E.
    + apply bool_decide_eq_true_1 in E.
      rewrite bool_decide_eq_true_2; [done | by right].
    + apply bool_decide_eq_false_1 in E.
      rewrite bool_decide_eq_false_2; [done |].
      intros [?|?]%elem_of_cons; congruence.
Qed.

Lemma well_formed_put (k v : string) (s : Storage) :
  well_formed s → well_formed (put k v s).
Proof.
  unfold well_formed. intros Hnd. rewrite keys_put.
  destruct (bool_decide (k ∈ keys s)) eqn:E; [done |].
  apply bool_decide_eq_false_1 in E.
  apply NoDup_app. split_and!; [done | | apply NoDup_singleton].
  intros x Hx Hk. by apply list_elem_of_singleton in Hk as ->.
Qed.

Lemma keys_removeItem_sublist (k : string) (s : Storage) :
  sublist (keys (removeItem k s)) (keys s).
Proof.
  induction s as [|[k' v'] s IH]; simpl; [done |].
  destruct (String.eqb k k'); simpl.
  - by apply sublist_cons.
  - by apply sublist_skip.
Qed.

Lemma well_formed_removeItem (k : string) (s : Storage) :
  well_formed s → well_formed (removeItem k s).
Proof.
  unfold well_formed. intros Hnd.
  eapply sublist_NoDup; [done | apply keys_removeItem_sublist].
Qed.

Lemma getItem_None_keys (k : string) (s : Storage) :
  getItem k s = None ↔ ¬ In k (keys s).
Proof.
  induction s as [|[k' v'] s IH]; simpl.
  - split; [intros _ [] | done].
  - destruct (String.eqb_spec k k') as [->|Hne].
    + split; [done | intros H; exfalso; apply H; by left].
    + rewrite IH. split.
      * intros H [?|?]; [congruence | done].
      * intros H Hin. apply H. by right.
Qed.

(** In an area without repeated keys a removed key is gone. *)
Lemma getItem_removeItem_eq (k : string) (s : Storage) :
  well_formed s → getItem k (removeItem k s) = None.
Proof.
  unfold well_formed.
  induction s as [|[k' v'] s IH]; simpl; [done |].
  intros Hnd. apply NoDup_cons in Hnd as [Hnotin Hnd].
  destruct (String.eqb_spec k k') as [->|Hk]; simpl.
  - apply getItem_None_keys. by rewrite <- list_elem_of_In.
  - destruct (String.eqb_spec k k'); [done | auto].
Qed.

Lemma getItem_removeItem_ne (k k' : string) (s : Storage) :
  k ≠ k' → getItem k' (removeItem k s) = getItem k' s.
Proof.
  intros Hne. induction s as [|[k0 v0] s IH]; simpl; [done |].
  destruct (String.eqb_spec k k0) as [->|Hk]; simpl.
  - destruct (String.eqb_spec k' k0); [congruence | done].
  - by rewrite IH.
Qed.

Lemma removeItem_absent (k : string) (s : Storage) :
  getItem k s = None → removeItem k s = s.
Proof.
  induction s as [|[k' v'] s IH]; simpl; [done |].
  destruct (String.eqb_spec k k') as [->|Hk]; [done |].
  intros H. by rewrite IH.
Qed.

(** Removing the keys [ks], none of which is [k], passes over [k]. *)
Lemma foldl_removeItem_cons (k v : string) (s : Storage) (ks : list string) :
  ¬ In k ks →
  foldl (fun s key => removeItem key s) ((k, v) :: s) ks =
  (k, v) :: foldl (fun s key => removeItem key s) s ks.
Proof.
  revert s. induction ks as [|k' ks IH]; intros s Hnotin; simpl; [done |].
  destruct (String.eqb_spec k' k) as [->|Hne].
  - exfalso. apply Hnotin. by left.
  - apply IH. intros Hin. apply Hnotin. by right.
Qed.

(** Collecting the keys that satisfy [P] and removing them one by one leaves
    the pairs whose key does not satisfy [P], in their order. *)
Lemma foldl_removeItem_filter (P : string -> bool) (s : Storage) :
  foldl (fun s key => removeItem key s) s (List.filter P (keys s)) =
  List.filter (fun kv => negb (P kv.1)) s.
Proof.
  induction s as [|[k v] s IH]; simpl; [done |].
  destruct (P k) eqn:HP; simpl.
  - by rewrite String.eqb_refl.
  - rewrite foldl_removeItem_cons; [by rewrite IH |].
    intros Hin. apply filter_In in Hin as [_ Hk]. congruence.
Qed.

Lemma getItem_filter (Q : string -> bool) (k : string) (s : Storage) :
  getItem k (List.filter (fun kv => Q kv.1) s) = if Q k then getItem k s else None.
Proof.
  induction s as [|[k' v'] s IH]; simpl; [by destruct (Q k) |].
  destruct (Q k') eqn:HQ; simpl.
  - destruct (String.eqb_spec k k') as [->|Hne]; [by rewrite HQ | done].
  - destruct (String.eqb_spec k k') as [->|Hne]; [by rewrite IH, HQ | done].
Qed.

Lemma filter_filter_same {A : Type} (Q : A -> bool) (l : list A) :
  List.filter Q (List.filter Q l) = List.filter Q l.
Proof.
  induction l as [|x l IH]; simpl; [done |].
  destruct (Q x) eqn:HQ; simpl; [by rewrite HQ, IH | done].
Qed.

Lemma well_formed_filter (Q : string * string -> bool) (s : Storage) :
  well_formed s → well_formed (List.filter Q s).
Proof.
  unfold well_formed, keys. induction s as [|kv s IH]; simpl; [done |].
  intros Hnd. apply NoDup_cons in Hnd as [Hnotin Hnd].
  destruct (Q kv); simpl; [|auto].
  apply NoDup_cons. split; [|auto].
  intros Hin. apply Hnotin.
  apply list_elem_of_fmap in Hin as (y & -> & Hy).
  apply list_elem_of_fmap. exists y. split; [done |].
  apply list_elem_of_In. apply list_elem_of_In, filter_In in Hy. tauto.
Qed.

End AreaFacts.

(** ** The storage manager: purge, clear, read, write *)

Section StorageManagerMore.
Import WebStorage StorageManager StorageManagerGet BrowserHelper.

Lemma cleanNonPersistentData_filter (b : Browser) :
  cleanNonPersistentData b =
  {| localStorage := List.filter (fun kv => negb (purged kv.1)) (localStorage b);
     sessionStorage := sessionStorage b |}.
Proof.
  unfold cleanNonPersistentData. simpl. f_equal.
  apply (foldl_removeItem_filter purged).
Qed.

Lemma clearAll_filter (b : Browser) :
  clearAll b =
  {| localStorage :=
       List.filter (fun kv => negb (JSString.startsWith storagePrefix kv.1))
                   (localStorage b);
     sessionStorage := sessionStorage b |}.
Proof.
  unfold clearAll. simpl. f_equal.
  apply (foldl_removeItem_filter (JSString.startsWith storagePrefix)).
Qed.

Lemma purged_getKey (key : string) :
  purged (getKey key) = negb (isPersistentKey key).
Proof.
  unfold purged, JSString.startsWith, unprefixed, getKey.
  by rewrite prefix_app, replace_first_prefixed.
Qed.

Lemma startsWith_getKey (key : string) :
  JSString.startsWith storagePrefix (getKey key) = true.
Proof. apply prefix_app. Qed.

(** X1. After [cleanNonPersistentData()], [localStorage] has no namespaced
    key outside the allowlist; the namespaced keys of the allowlist and the
    keys without the prefix have the values they had; [sessionStorage] is as
    it was. *)
Theorem cleanNonPersistentData_effect (b : Browser) :
  let b' := cleanNonPersistentData b in
  (∀ key, isPersistentKey key = false →
          getItem (getKey key) (localStorage b') = None)
  ∧ (∀ key, isPersistentKey key = true →
            getItem (getKey key) (localStorage b') = getItem (getKey key) (localStorage b))
  ∧ (∀ k, JSString.startsWith storagePrefix k = false →
          getItem k (localStorage b') = getItem k (localStorage b))
  ∧ sessionStorage b' = sessionStorage b.
Proof.
  cbv zeta. rewrite cleanNonPersistentData_filter; simpl. split_and!; [| | |done].
  - intros key Hkey.
    rewrite (getItem_filter (fun k => negb (purged k))), purged_getKey, Hkey. done.
  - intros key Hkey.
    rewrite (getItem_filter (fun k => negb (purged k))), purged_getKey, Hkey. done.
  - intros k Hk.
    rewrite (getItem_filter (fun k => negb (purged k))). unfold purged. by rewrite Hk.
Qed.

(** X2. [cleanNonPersistentData()] is idempotent: a second call changes
    nothing. *)
Theorem cleanNonPersistentData_idempotent (b : Browser) :
  cleanNonPersistentData (cleanNonPersistentData b) = cleanNonPersistentData b.
Proof.
  rewrite !cleanNonPersistentData_filter; simpl. f_equal.
  apply filter_filter_same.
Qed.

Section WithParser.

Variable quota : Quota.
Variable value : Type.
Variable JSON_stringify : value -> option string.
Variable JSON_parse : string -> option value.
Variable is_null : value -> bool.

Local Abbreviation get := (StorageManagerGet.get value JSON_parse is_null).
Local Abbreviation set := (StorageManager.set quota value JSON_stringify).

(** X3. After [clearAll()], [get] returns the default for every key, the
    keys of [localStorage] without the prefix have the values they had, and
    [sessionStorage] is as it was: it keeps every entry that [clearAll]
    took from [localStorage]. *)
Theorem clearAll_effect (b : Browser) :
  (∀ key defaultValue, get key defaultValue (clearAll b) = defaultValue)
  ∧ (∀ k, JSString.startsWith storagePrefix k = false →
          getItem k (localStorage (clearAll b)) = getItem k (localStorage b))
  ∧ sessionStorage (clearAll b) = sessionStorage b.
Proof.
  rewrite clearAll_filter; simpl. split_and!; [| |done].
  - intros key d. unfold StorageManagerGet.get; simpl.
    rewrite (getItem_filter (fun k => negb (JSString.startsWith storagePrefix k))).
    by rewrite startsWith_getKey.
  - intros k Hk.
    rewrite (getItem_filter (fun k => negb (JSString.startsWith storagePrefix k))).
    by rewrite Hk.
Qed.

(** X4. What [clearAll()] removes, the next [sync()] brings back: a
    persistent entry with a value that is not empty, which [sessionStorage]
    still has, is in [localStorage] again after [clearAll()] and a [sync()]
    that runs to its end. *)
Theorem clearAll_then_sync (b : Browser) (key v : string) :
  isPersistentKey key = true →
  getItem (getKey key) (sessionStorage b) = Some v →
  truthy v = true →
  has_thrown (sync_body quota (clearAll b)) = false →
  getItem (getKey key) (localStorage (clearAll b)) = None
  ∧ getItem (getKey key) (localStorage (sync quota (clearAll b))) = Some v.
Proof.
  intros Hkey Hs Hv Hrun.
  assert (Hgone : getItem (getKey key) (localStorage (clearAll b)) = None).
  { rewrite clearAll_filter; simpl.
    rewrite (getItem_filter (fun k => negb (JSString.startsWith storagePrefix k))).
    by rewrite startsWith_getKey. }
  split; [done |].
  rewrite clearAll_filter in *; simpl in *.
  set (l := List.filter _ (localStorage b)) in *.
  destruct (sync_body_completed quota l (sessionStorage b) Hrun)
    as (s1 & l1 & E1 & E2 & Hsync).
  rewrite Hsync; simpl.
  pose proof (first_loop_absent quota l (sessionStorage b) (getKey key) Hgone) as Hs1.
  rewrite E1 in Hs1; simpl in Hs1. rewrite Hs in Hs1.
  eapply copy_loop_completed; [exact E2 | by eapply getItem_Some_keys |].
  unfold copied. split_and!;
    [apply truthy_getKey | by rewrite persistent_key_getKey | done | done].
Qed.

(** X5. A value that [set] has written to [localStorage] is what [get]
    returns next, also when [set] returned [false] because only the write to
    [sessionStorage] threw: if the string of the value is not empty and
    [JSON.parse] gives [parsed] for it, not [null], then [get] returns
    [parsed]. *)
Theorem get_after_set (key : string) (v parsed defaultValue : value) (s : string)
    (b : Browser) :
  JSON_stringify v = Some s →
  truthy s = true →
  JSON_parse s = Some parsed →
  is_null parsed = false →
  quota InLocal (localStorage b) (getKey key) s = true →
  get key defaultValue (set key v b).2 = parsed.
Proof.
  intros Hs Ht Hp Hn Hq.
  assert (Hl : getItem (getKey key) (localStorage (set key v b).2) = Some s).
  { unfold StorageManager.set, setItem. rewrite Hs, Hq; simpl.
    destruct (quota InSession (sessionStorage b) (getKey key) s); simpl;
      apply getItem_put_eq. }
  unfold StorageManagerGet.get. by rewrite Hl, Ht, Hp, Hn.
Qed.

(** X6. [remove(key)] on areas without repeated keys: afterwards neither
    area has the key, [get] returns the default, and every other key of
    both areas has the value it had. *)
Theorem remove_effect (key : string) (defaultValue : value) (b : Browser) :
  well_formed (localStorage b) →
  well_formed (sessionStorage b) →
  let b' := (StorageManager.remove key b).2 in
  (StorageManager.remove key b).1 = true
  ∧ getItem (getKey key) (localStorage b') = None
  ∧ getItem (getKey key) (sessionStorage b') = None
  ∧ get key defaultValue b' = defaultValue
  ∧ (∀ k, k ≠ getKey key →
          getItem k (localStorage b') = getItem k (localStorage b)
          ∧ getItem k (sessionStorage b') = getItem k (sessionStorage b)).
Proof.
  intros Hl Hs. cbv zeta. unfold StorageManager.remove; simpl.
  split_and!; [done | by apply getItem_removeItem_eq .. | |].
  - unfold StorageManagerGet.get; simpl. by rewrite getItem_removeItem_eq.
  - intros k Hk. split; by apply getItem_removeItem_ne.
Qed.

(** X7. [set(key, value)] leaves every other key of both areas as it was,
    whatever it returns. *)
Theorem set_other_keys (key : string) (v : value) (b : Browser) (k : string) :
  k ≠ getKey key →
  getItem k (localStorage (set key v b).2) = getItem k (localStorage b)
  ∧ getItem k (sessionStorage (set key v b).2) = getItem k (sessionStorage b).
Proof.
  intros Hk. unfold StorageManager.set, setItem.
  destruct (JSON_stringify v) as [s|]; [|done].
  destruct (quota InLocal (localStorage b) (getKey key) s); simpl; [|done].
  destruct (quota InSession (sessionStorage b) (getKey key) s); simpl;
    split; try done; by apply getItem_put_ne.
Qed.

End WithParser.

End StorageManagerMore.

(** ** [sync] of the storage manager, further *)

Section SyncMore.
Import WebStorage StorageManager BrowserHelper.

Variable quota : Quota.

Lemma copy_loop_well_formed (wanted : string -> bool) (a : area) (src : Storage)
    (ks : list string) (dst : Storage) :
  well_formed dst → well_formed (state_of (copy_loop quota wanted a src ks dst)).
Proof.
  revert dst. induction ks as [|k ks IH]; intros dst Hdst; simpl; [done |].
  destruct (truthy k && wanted k); [|by apply IH].
  destruct (getItem k src) as [v|]; [|by apply IH].
  destruct (truthy v); [|by apply IH].
  unfold setItem. destruct (quota a dst k v); [|done].
  by apply IH, well_formed_put.
Qed.

Lemma sync_unfold (l s : Storage) :
  sync quota {| localStorage := l; sessionStorage := s |} =
  match copy_loop quota every_key InSession l (keys l) s with
  | Thrown s' => {| localStorage := l; sessionStorage := s' |}
  | Completed s' =>
      {| localStorage := state_of (copy_loop quota persistent_key InLocal s' (keys s') l);
         sessionStorage := s' |}
  end.
Proof.
  unfold sync. rewrite sync_body_unfold.
  destruct (copy_loop quota every_key InSession l (keys l) s) as [s'|s']; [|done].
  by destruct (copy_loop quota persistent_key InLocal s' (keys s') l).
Qed.

(** X8. [localStorage] wins: an entry of [localStorage] with a value that
    is not empty has the same value after [sync()], whatever
    [sessionStorage] had for its key; and when [sync()] runs to its end and
    the key is not empty, [sessionStorage] has that value too. *)
Theorem sync_keeps_local (b : Browser) (k v : string) :
  getItem k (localStorage b) = Some v →
  truthy v = true →
  getItem k (localStorage (sync quota b)) = Some v
  ∧ (has_thrown (sync_body quota b) = false → truthy k = true →
     getItem k (sessionStorage (sync quota b)) = Some v).
Proof.
  intros Hl Hv. destruct b as [l s]; simpl in *. split.
  - rewrite sync_unfold.
    destruct (copy_loop quota every_key InSession l (keys l) s) as [s1|s1] eqn:E1;
      simpl; [|done].
    destruct (copy_loop_getItem quota persistent_key InLocal s1 (keys s1) l k)
      as [H|(v' & (Hk & _ & Hs1 & _) & _ & H)]; [by rewrite H |].
    rewrite H. rewrite <- Hs1.
    eapply copy_loop_completed; [exact E1 | by eapply getItem_Some_keys |].
    unfold copied. by split_and!.
  - intros Hrun Hk.
    destruct (sync_body_completed quota l s Hrun) as (s1 & l1 & E1 & _ & Hsync).
    rewrite Hsync; simpl.
    eapply copy_loop_completed; [exact E1 | by eapply getItem_Some_keys |].
    unfold copied. by split_and!.
Qed.

(** X9. After a [sync()] that runs to its end the two areas agree on every
    persistent entry: for a key of the allowlist and a value that is not
    empty, [localStorage] has the value under the namespaced key exactly
    when [sessionStorage] has it. *)
Theorem sync_converges (b : Browser) (key v : string) :
  has_thrown (sync_body quota b) = false →
  isPersistentKey key = true →
  truthy v = true →
  getItem (getKey key) (localStorage (sync quota b)) = Some v
  ↔ getItem (getKey key) (sessionStorage (sync quota b)) = Some v.
Proof.
  intros Hrun Hkey Hv. destruct b as [l s].
  destruct (sync_body_completed quota l s Hrun) as (s1 & l1 & E1 & E2 & Hsync).
  rewrite Hsync; simpl. split.
  - intros Hl1.
    pose proof (copy_loop_getItem quota persistent_key InLocal s1 (keys s1) l (getKey key))
      as H.
    cbv zeta in H. rewrite E2 in H; simpl in H.
    destruct H as [H|(v' & (_ & _ & Hs1 & _) & _ & H)]; [|congruence].
    rewrite Hl1 in H. symmetry in H.
    eapply copy_loop_completed; [exact E1 | by eapply getItem_Some_keys |].
    unfold copied. split_and!; [apply truthy_getKey | done | done | done].
  - intros Hs1.
    eapply copy_loop_completed; [exact E2 | by eapply getItem_Some_keys |].
    unfold copied. split_and!;
      [apply truthy_getKey | by rewrite persistent_key_getKey | done | done].
Qed.

(** X10. No call of the storage manager makes a key occur twice: from areas
    without repeated keys, [set], [remove], [sync],
    [cleanNonPersistentData] and [clearAll] lead to areas without repeated
    keys. *)
Theorem well_formed_preserved (value : Type) (JSON_stringify : value -> option string)
    (key : string) (v : value) (b : Browser) :
  well_formed (localStorage b) →
  well_formed (sessionStorage b) →
  ∀ b', In b' [ (StorageManager.set quota value JSON_stringify key v b).2;
                (StorageManager.remove key b).2;
                sync quota b;
                cleanNonPersistentData b;
                clearAll b ] →
        well_formed (localStorage b') ∧ well_formed (sessionStorage b').
Proof.
  intros Hl Hs b' Hin. destruct b as [l s]; simpl in *.
  destruct Hin as [<-|[<-|[<-|[<-|[<-|[]]]]]].
  - unfold StorageManager.set, setItem; simpl.
    destruct (JSON_stringify v) as [str|]; [|done].
    destruct (quota InLocal l (getKey key) str); simpl; [|done].
    destruct (quota InSession s (getKey key) str); simpl;
      split; try done; by apply well_formed_put.
  - simpl. split; by apply well_formed_removeItem.
  - rewrite sync_unfold.
    pose proof (copy_loop_well_formed every_key InSession l (keys l) s Hs) as Hs1.
    destruct (copy_loop quota every_key InSession l (keys l) s) as [s1|s1];
      simpl in *; [|done].
    split; [|done]. by apply copy_loop_well_formed.
  - rewrite cleanNonPersistentData_filter; simpl. split; [|done].
    by apply well_formed_filter.
  - rewrite clearAll_filter; simpl. split; [|done].
    by apply well_formed_filter.
Qed.

End SyncMore.

(** ** The browser helper [storage] and [useStorageSync] *)

Section BrowserHelperFacts.
Import WebStorage StorageManager BrowserHelper.

Variable quota : Quota.

Lemma helper_sync_unfold (l s : Storage) :
  BrowserStorage.sync quota {| localStorage := l; sessionStorage := s |} =
  match copy_loop quota every_key InSession l (keys l) s with
  | Thrown s' => (false, {| localStorage := l; sessionStorage := s' |})
  | Completed s' =>
      match copy_loop quota every_key InLocal s' (keys s') l with
      | Thrown l' => (false, {| localStorage := l'; sessionStorage := s' |})
      | Completed l' => (true, {| localStorage := l'; sessionStorage := s' |})
      end
  end.
Proof. reflexivity. Qed.

(** X11. [storage.sync()] of the browser helper is idempotent on the
    areas: a second call right after the first leaves both areas as the
    first left them, whichever writes throw. *)
Theorem helper_sync_idempotent (b : Browser) :
  (BrowserStorage.sync quota (BrowserStorage.sync quota b).2).2
  = (BrowserStorage.sync quota b).2.
Proof.
  destruct b as [l s]. rewrite (helper_sync_unfold l s).
  pose proof (copy_loop_again quota every_key InSession l (keys l) s) as Hfirst.
  cbv zeta in Hfirst.
  destruct (copy_loop quota every_key InSession l (keys l) s) as [s1|s1] eqn:E1;
    simpl in Hfirst; destruct Hfirst as [Hstate Hthrown].
  - pose proof (copy_loop_again quota every_key InLocal s1 (keys s1) l) as Hsecond.
    cbv zeta in Hsecond. destruct Hsecond as [Hstate2 _].
    set (l1 := state_of (copy_loop quota every_key InLocal s1 (keys s1) l)) in *.
    assert (Hres : (match copy_loop quota every_key InLocal s1 (keys s1) l with
                    | Thrown l' => (false, {| localStorage := l'; sessionStorage := s1 |})
                    | Completed l' => (true, {| localStorage := l'; sessionStorage := s1 |})
                    end).2 = {| localStorage := l1; sessionStorage := s1 |}).
    { subst l1. by destruct (copy_loop quota every_key InLocal s1 (keys s1) l). }
    rewrite Hres. rewrite helper_sync_unfold.
    assert (Hcov : ∀ k v, copied every_key l1 k v → getItem k s1 = Some v).
    { intros k v (Hk & _ & Hl1 & Hv).
      destruct (copy_loop_getItem quota every_key InLocal s1 (keys s1) l k)
        as [H|(v'&(_&_&Hs1&_)&_&H)]; fold l1 in H.
      - rewrite Hl1 in H. symmetry in H.
        eapply copy_loop_completed; [exact E1 | by eapply getItem_Some_keys |].
        unfold copied. by split_and!.
      - congruence. }
    pose proof (copy_loop_covered quota every_key InSession l1 (keys l1) s1 Hcov) as Hs1.
    destruct (copy_loop quota every_key InSession l1 (keys l1) s1) as [s2|s2];
      simpl in Hs1; subst s2; [|done].
    destruct (copy_loop quota every_key InLocal s1 (keys s1) l1) as [l2|l2];
      simpl in Hstate2; by subst l2.
  - simpl. rewrite helper_sync_unfold.
    specialize (Hthrown eq_refl).
    destruct (copy_loop quota every_key InSession l (keys l) s1) as [s2|s2];
      simpl in *; [done | by subst s2].
Qed.

(** X12. When [storage.sync()] of the browser helper returns [true], the
    two areas agree on every entry whose key and value are not empty:
    [localStorage] has the value under the key exactly when [sessionStorage]
    has it. *)
Theorem helper_sync_converges (b : Browser) (k v : string) :
  (BrowserStorage.sync quota b).1 = true →
  truthy k = true →
  truthy v = true →
  getItem k (localStorage (BrowserStorage.sync quota b).2) = Some v
  ↔ getItem k (sessionStorage (BrowserStorage.sync quota b).2) = Some v.
Proof.
  destruct b as [l s]. rewrite helper_sync_unfold. intros Hrun Hk Hv.
  destruct (copy_loop quota every_key InSession l (keys l) s) as [s1|s1] eqn:E1;
    [|done].
  destruct (copy_loop quota every_key InLocal s1 (keys s1) l) as [l1|l1] eqn:E2;
    [|done].
  simpl. split.
  - intros Hl1.
    pose proof (copy_loop_getItem quota every_key InLocal s1 (keys s1) l k) as H.
    cbv zeta in H. rewrite E2 in H; simpl in H.
    destruct H as [H|(v' & (_ & _ & Hs1 & _) & _ & H)]; [|congruence].
    rewrite Hl1 in H. symmetry in H.
    eapply copy_loop_completed; [exact E1 | by eapply getItem_Some_keys |].
    unfold copied. by split_and!.
  - intros Hs1.
    eapply copy_loop_completed; [exact E2 | by eapply getItem_Some_keys |].
    unfold copied. by split_and!.
Qed.

Section WithJSON.

Variable value : Type.
Variable JSON_stringify : value -> option serialized.
Variable JSON_parse : string -> option value.

Local Abbreviation get := (BrowserHelper.get quota value JSON_parse).
Local Abbreviation set := (BrowserHelper.set quota value JSON_stringify).

(** X13. [storage.get] repairs the other area.  An item of
    [localStorage] that is not empty, parses, and that [sessionStorage]
    takes, is returned parsed and is in [sessionStorage] afterwards; when
    [localStorage] has no such item, an item of [sessionStorage] that is
    not empty, parses, and that [localStorage] takes, is returned parsed and
    is in [localStorage] afterwards. *)
Theorem helper_get_repairs (k item : string) (parsed defaultValue : value)
    (b : Browser) :
  JSON_parse item = Some parsed →
  (if_truthy (getItem k (localStorage b)) = Some item →
   quota InSession (sessionStorage b) k item = true →
   (get k defaultValue b).1 = parsed
   ∧ getItem k (sessionStorage (get k defaultValue b).2) = Some item
   ∧ localStorage (get k defaultValue b).2 = localStorage b)
  ∧ (if_truthy (getItem k (localStorage b)) = None →
     if_truthy (getItem k (sessionStorage b)) = Some item →
     quota InLocal (localStorage b) k item = true →
     (get k defaultValue b).1 = parsed
     ∧ getItem k (localStorage (get k defaultValue b).2) = Some item
     ∧ sessionStorage (get k defaultValue b).2 = sessionStorage b).
Proof.
  intros Hparse. unfold BrowserHelper.get, setItem. split.
  - intros Hl Hq. rewrite Hl, Hparse, Hq; simpl.
    split_and!; [done | apply getItem_put_eq | done].
  - intros Hl Hs Hq. rewrite Hl, Hs, Hparse, Hq; simpl.
    split_and!; [done | apply getItem_put_eq | done].
Qed.

(** X14. [storage.get] returns the default and leaves both areas as they
    were when neither area has an item that is not empty, when [JSON.parse]
    throws on the item found, and also when the item parses but the write
    to the other area throws.  In every case the other keys of both areas
    have the values they had. *)
Theorem helper_get_default (k : string) (defaultValue : value) (b : Browser) :
  let found :=
    match if_truthy (getItem k (localStorage b)) with
    | Some item => Some (item, InSession)
    | None =>
        match if_truthy (getItem k (sessionStorage b)) with
        | Some item => Some (item, InLocal)
        | None => None
        end
    end in
  (found = None → get k defaultValue b = (defaultValue, b))
  ∧ (∀ item a, found = Some (item, a) → JSON_parse item = None →
               get k defaultValue b = (defaultValue, b))
  ∧ (∀ item a, found = Some (item, a) →
               quota a (storage_of a b) k item = false →
               get k defaultValue b = (defaultValue, b))
  ∧ (∀ k', k' ≠ k →
           getItem k' (localStorage (get k defaultValue b).2) = getItem k' (localStorage b)
           ∧ getItem k' (sessionStorage (get k defaultValue b).2)
             = getItem k' (sessionStorage b)).
Proof.
  cbv zeta. unfold BrowserHelper.get, setItem.
  destruct (if_truthy (getItem k (localStorage b))) as [item|].
  - split_and!.
    + done.
    + intros item' a [= <- <-] Hp. by rewrite Hp.
    + intros item' a [= <- <-] Hq; simpl in Hq. rewrite Hq.
      by destruct (JSON_parse item).
    + intros k' Hk'. destruct (JSON_parse item); [|done].
      destruct (quota InSession (sessionStorage b) k item); simpl; [|done].
      split; [done | by apply getItem_put_ne].
  - destruct (if_truthy (getItem k (sessionStorage b))) as [item|].
    + split_and!.
      * done.
      * intros item' a [= <- <-] Hp. by rewrite Hp.
      * intros item' a [= <- <-] Hq; simpl in Hq. rewrite Hq.
        by destruct (JSON_parse item).
      * intros k' Hk'. destruct (JSON_parse item); [|done].
        destruct (quota InLocal (localStorage b) k item); simpl; [|done].
        split; [by apply getItem_put_ne | done].
    + split_and!; done.
Qed.

Lemma deliver_text (k s : string) (l ss : Storage) :
  getItem k ss = Some s →
  deliver quota {| key := Some k; newValue := Some s; storageArea := Some InLocal |}
          {| localStorage := l; sessionStorage := ss |}
  = {| localStorage := l; sessionStorage := ss |}.
Proof.
  intros Hs. unfold deliver, handleStorage, setItem; simpl.
  destruct (truthy k); [|done].
  destruct (quota InSession ss k s); simpl; [|done].
  by rewrite (put_same _ _ _ Hs).
Qed.

(** X15. The event that [storage.set] dispatches changes nothing when the
    value has a JSON text: with any number of mounted [useStorageSync]
    listeners, [set] returns what it returns and leaves the areas as it
    leaves them with no listener. *)
Theorem helper_set_listeners (listeners : nat) (k : string) (v : value) (b : Browser) :
  JSON_stringify v ≠ Some NoText →
  set listeners k v b = set 0 k v b.
Proof.
  intros Htext. unfold BrowserHelper.set, setItem. destruct b as [l ss].
  destruct (JSON_stringify v) as [[s|]|]; [|done|done]. simpl.
  destruct (quota InLocal l k s); simpl; [|done].
  destruct (quota InSession ss k s); simpl; [|done].
  f_equal. unfold dispatchEvent.
  induction listeners as [|n IH]; simpl; [done |].
  rewrite IH. apply deliver_text, getItem_put_eq.
Qed.

(** X16. [storage.set] of a value for which [JSON.stringify] returns
    [undefined]: both areas take the string [undefined]; the event carries
    [newValue: null], so with a mounted [useStorageSync] listener the key
    is removed from [sessionStorage] again, and [set] returns [true] with
    the string in [localStorage] only. *)
Theorem helper_set_undefined (listeners : nat) (k : string) (v : value) (b : Browser) :
  JSON_stringify v = Some NoText →
  truthy k = true →
  well_formed (sessionStorage b) →
  quota InLocal (localStorage b) k "undefined" = true →
  quota InSession (sessionStorage b) k "undefined" = true →
  (set (S listeners) k v b).1 = true
  ∧ getItem k (localStorage (set (S listeners) k v b).2) = Some "undefined"
  ∧ getItem k (sessionStorage (set (S listeners) k v b).2) = None
  ∧ getItem k (sessionStorage (set 0 k v b).2) = Some "undefined".
Proof.
  intros Hv Hk Hwf Hl Hs. unfold BrowserHelper.set, setItem, dispatchEvent.
  destruct b as [l ss].
  cbn [localStorage sessionStorage] in *.
  rewrite Hv. cbn [item_of newValue_of]. rewrite Hl.
  cbn [with_area localStorage sessionStorage]. rewrite Hs.
  cbn [with_area localStorage sessionStorage].
  assert (Hiter : ∀ n l0 s0, well_formed s0 →
            ∃ ss', Nat.iter (S n)
                     (deliver quota {| key := Some k; newValue := None;
                                       storageArea := Some InLocal |})
                     {| localStorage := l0; sessionStorage := s0 |}
                   = {| localStorage := l0; sessionStorage := ss' |}
                   ∧ getItem k ss' = None).
  { intros n l0 s0 Hss. induction n as [|n (ss' & IH & Hnone)].
    - exists (removeItem k s0). simpl. unfold deliver, handleStorage; simpl.
      rewrite Hk; simpl. split; [done | by apply getItem_removeItem_eq].
    - exists ss'. split; [|done].
      change (Nat.iter (S (S n)) ?f ?x) with (f (Nat.iter (S n) f x)).
      rewrite IH. unfold deliver, handleStorage; simpl. rewrite Hk; simpl.
      by rewrite removeItem_absent. }
  destruct (Hiter listeners (put k "undefined" l) (put k "undefined" ss))
    as (ss' & Heq & Hnone); [by apply well_formed_put |].
  rewrite Heq. cbn [fst snd localStorage sessionStorage Nat.iter].
  split_and!; [done | apply getItem_put_eq | done | apply getItem_put_eq].
Qed.

End WithJSON.

(** X17. [handleStorage] never writes to the area that the event comes
    from, never touches another key, and ignores an event whose area is
    neither [localStorage] nor [sessionStorage] or whose key is [null] or
    empty. *)
Theorem handleStorage_frame (e : StorageEvent) (b : Browser) :
  (∀ origin, storageArea e = Some origin →
             storage_of origin (deliver quota e b) = storage_of origin b)
  ∧ (∀ k', key e ≠ Some k' →
           getItem k' (localStorage (deliver quota e b)) = getItem k' (localStorage b)
           ∧ getItem k' (sessionStorage (deliver quota e b))
             = getItem k' (sessionStorage b))
  ∧ (storageArea e = None ∨ if_truthy (key e) = None → deliver quota e b = b).
Proof.
  destruct e as [[k|] nv [origin|]]; destruct b as [l s];
    unfold deliver, handleStorage, setItem; simpl; split_and!; try done.
  - intros o [= <-]. destruct (truthy k); [|done].
    destruct nv as [v|]; [|by destruct origin].
    destruct origin; simpl.
    + by destruct (quota InSession s k v).
    + by destruct (quota InLocal l k v).
  - intros k' Hk'. assert (k ≠ k') by congruence.
    destruct (truthy k); [|done].
    destruct nv as [v|]; destruct origin; simpl.
    + destruct (quota InSession s k v); simpl; [|done].
      split; [done | by apply getItem_put_ne].
    + destruct (quota InLocal l k v); simpl; [|done].
      split; [by apply getItem_put_ne | done].
    + split; [done | by apply getItem_removeItem_ne].
    + split; [by apply getItem_removeItem_ne | done].
  - intros [?|Hk]; [done |]. by destruct (truthy k).
Qed.

Lemma deliver_unfold (origin : area) (k : string) (nv : option string) (b : Browser) :
  truthy k = true →
  deliver quota {| key := Some k; newValue := nv; storageArea := Some origin |} b =
  match nv with
  | None =>
      with_area (otherStorage origin)
                (removeItem k (storage_of (otherStorage origin) b)) b
  | Some v =>
      if quota (otherStorage origin) (storage_of (otherStorage origin) b) k v
      then with_area (otherStorage origin)
                     (put k v (storage_of (otherStorage origin) b)) b
      else b
  end.
Proof.
  intros Hk. unfold deliver, handleStorage, setItem.
  cbn [key newValue storageArea]. rewrite Hk.
  destruct nv as [v|]; [|done].
  by destruct (quota (otherStorage origin) (storage_of (otherStorage origin) b) k v).
Qed.

Lemma storage_of_with_area (a : area) (s : Storage) (b : Browser) :
  storage_of a (with_area a s b) = s.
Proof. by destruct a. Qed.

Lemma with_area_with_area (a : area) (s s' : Storage) (b : Browser) :
  with_area a s (with_area a s' b) = with_area a s b.
Proof. by destruct a. Qed.

(** X18. What [handleStorage] does to the other area, on areas without
    repeated keys: after an event with [newValue: null] the other area does
    not have the key; after an event with a value that the other area
    takes, it has that value under the key; and handling the same event a
    second time changes nothing. *)
Theorem handleStorage_mirror (origin : area) (k : string) (nv : option string)
    (b : Browser) :
  truthy k = true →
  well_formed (localStorage b) →
  well_formed (sessionStorage b) →
  let e := {| key := Some k; newValue := nv; storageArea := Some origin |} in
  let other := otherStorage origin in
  (nv = None → getItem k (storage_of other (deliver quota e b)) = None)
  ∧ (∀ v, nv = Some v → quota other (storage_of other b) k v = true →
          getItem k (storage_of other (deliver quota e b)) = Some v)
  ∧ deliver quota e (deliver quota e b) = deliver quota e b.
Proof.
  intros Hk Hl Hs. cbv zeta.
  assert (Hwf : well_formed (storage_of (otherStorage origin) b))
    by by destruct origin.
  rewrite !(deliver_unfold origin k nv) by done.
  set (other := otherStorage origin) in *.
  destruct nv as [v|]; split_and!; try done.
  - intros v' [= <-] Hq. rewrite Hq, storage_of_with_area. apply getItem_put_eq.
  - destruct (quota other (storage_of other b) k v) eqn:Hq; [|by rewrite Hq].
    rewrite storage_of_with_area.
    destruct (quota other (put k v (storage_of other b)) k v); [|done].
    rewrite with_area_with_area.
    by rewrite (put_same k v (put k v (storage_of other b)) (getItem_put_eq k v _)).
  - intros _. rewrite storage_of_with_area. by apply getItem_removeItem_eq.
  - rewrite storage_of_with_area, with_area_with_area.
    rewrite (removeItem_absent k (removeItem k (storage_of other b))); [done |].
    by apply getItem_removeItem_eq.
Qed.

(** X19. [checkFeatureSupport('localStorage')] returns [true] exactly when
    [localStorage] takes the write of its probe, and then, on an area
    without repeated keys, an item that the page had stored under the key
    [test] is gone; the other keys and [sessionStorage] are as they were.  A
    feature that the function does not know gives [false] and touches
    nothing. *)
Theorem checkFeatureSupport_probe (page : Page) (b : Browser) :
  well_formed (localStorage b) →
  let r := checkFeatureSupport quota page "localStorage" b in
  r.1 = quota InLocal (localStorage b) "test" "test"
  ∧ (r.1 = true → getItem "test" (localStorage r.2) = None)
  ∧ (∀ k, k ≠ "test" → getItem k (localStorage r.2) = getItem k (localStorage b))
  ∧ sessionStorage r.2 = sessionStorage b
  ∧ (∀ feature, feature ≠ "webp" → feature ≠ "localStorage" → feature ≠ "indexedDB" →
                checkFeatureSupport quota page feature b = (false, b)).
Proof.
  intros Hwf. cbv zeta.
  assert (Hother : ∀ feature, feature ≠ "webp" → feature ≠ "localStorage" →
                     feature ≠ "indexedDB" →
                     checkFeatureSupport quota page feature b = (false, b)).
  { intros feature H1 H2 H3. unfold checkFeatureSupport.
    destruct (String.eqb_spec feature "webp"); [done |].
    destruct (String.eqb_spec feature "localStorage"); [done |].
    by destruct (String.eqb_spec feature "indexedDB"). }
  assert (Hprobe : checkFeatureSupport quota page "localStorage" b =
            if quota InLocal (localStorage b) "test" "test"
            then (true, with_area InLocal
                          (removeItem "test" (put "test" "test" (localStorage b))) b)
            else (false, b)).
  { unfold checkFeatureSupport, setItem; simpl.
    by destruct (quota InLocal (localStorage b) "test" "test"). }
  rewrite Hprobe.
  destruct (quota InLocal (localStorage b) "test" "test"); simpl;
    (split_and!; [done | | | done | done]); try done.
  - intros _. apply getItem_removeItem_eq. by apply well_formed_put.
  - intros k Hk. rewrite getItem_removeItem_ne by done. by apply getItem_put_ne.
Qed.

End BrowserHelperFacts.

(** ** [getBrowserInfo] *)

Section BrowserInfoFacts.
Import BrowserInfo.

Lemma version_run_chars (s : string) :
  every_char digit_or_dot (version_run s) = true.
Proof.
  induction s as [|c s IH]; simpl; [done |].
  destruct (digit_or_dot c) eqn:Hc; simpl; [by rewrite Hc | done].
Qed.

Lemma match_version_unfold (marker s : string) :
  match_version marker s =
  let here :=
    if String.prefix marker s
    then version_run (JSString.drop (String.length marker) s)
    else EmptyString in
  if negb (String.eqb here "") then here
  else match s with
       | EmptyString => EmptyString
       | String _ s' => match_version marker s'
       end.
Proof. by destruct s. Qed.

Lemma match_version_chars (marker s : string) :
  every_char digit_or_dot (match_version marker s) = true.
Proof.
  induction s as [|c s IH]; rewrite match_version_unfold; cbv zeta.
  - destruct (String.prefix marker ""); simpl; [|done].
    destruct (negb _); [apply version_run_chars | done].
  - destruct (String.prefix marker (String c s)).
    + destruct (negb _); [apply version_run_chars | exact IH].
    + simpl. exact IH.
Qed.

(** X20. The order of the tests decides the name: a user agent that
    contains [Firefox] is [Firefox]; one that contains [Chrome] is [Firefox]
    or [Chrome], whatever else it contains; and the name is [Edge] only for
    a user agent that contains none of [Firefox], [Chrome] and [Safari]. *)
Theorem getBrowserInfo_name (ua language : string) :
  let info := getBrowserInfo ua language in
  (contains "Firefox" ua = true → name info = "Firefox")
  ∧ (contains "Chrome" ua = true → name info = "Firefox" ∨ name info = "Chrome")
  ∧ (name info = "Edge" →
     contains "Firefox" ua = false ∧ contains "Chrome" ua = false
     ∧ contains "Safari" ua = false ∧ contains "Edge" ua = true)
  ∧ (name info = "Unknown" ↔
     contains "Firefox" ua = false ∧ contains "Chrome" ua = false
     ∧ contains "Safari" ua = false ∧ contains "Edge" ua = false).
Proof.
  cbv zeta. unfold getBrowserInfo.
  destruct (contains "Firefox" ua), (contains "Chrome" ua),
    (contains "Safari" ua), (contains "Edge" ua); simpl;
    split_and!; try done; try (split; [done | intros (?&?&?&?); done]); auto.
Qed.

(** X21. The version is made of digits and dots only, or it is the string
    [Unknown], which it is exactly when the name is [Unknown]. *)
Theorem getBrowserInfo_version (ua language : string) :
  let info := getBrowserInfo ua language in
  (name info ≠ "Unknown" → every_char digit_or_dot (version info) = true)
  ∧ (name info = "Unknown" → version info = "Unknown").
Proof.
  cbv zeta. unfold getBrowserInfo.
  destruct (contains "Firefox" ua), (contains "Chrome" ua),
    (contains "Safari" ua), (contains "Edge" ua); simpl;
    (split; [intros Hname; first [apply match_version_chars | done] | done]).
Qed.

End BrowserInfoFacts.

(** ** The ledger *)

Section LedgerFacts.
Import JS AuthStore Ledger.

Lemma updateProfile_signed_out (updates : obj) (w : World) :
  user (store w) = None → updateProfile updates w = (Returns tt, w).
Proof. intros H. unfold updateProfile, bind, get; simpl. by rewrite H. Qed.

Lemma updateAvatar_signed_out (avatarUrl : string) (w : World) :
  user (store w) = None → updateAvatar avatarUrl w = (Returns tt, w).
Proof. intros H. unfold updateAvatar, bind, get; simpl. by rewrite H. Qed.

Lemma updatePoints_signed_out (points : number) (w : World) :
  user (store w) = None → updatePoints points w = (Returns tt, w).
Proof. intros H. unfold updatePoints, bind, get; simpl. by rewrite H. Qed.

(** X22. A row that is missing.  [updateUserPoints] never throws, and it
    leaves the world as it is exactly when the directory has no row under
    the id and the id is not the name of a member of [Object.prototype];
    for such a name without a row it goes on with the inherited member,
    and stores and saves a row that has [points], a [totalEarned] of [NaN],
    and nothing else.  [updatePoints] throws, a [TypeError], exactly when
    there is an active user for whose id the directory has no row and
    which is not such a name, and it changes nothing then; for such a name
    without a row it returns, and the active user becomes a row that has
    the [points] given, a [totalEarned] of [NaN], and nothing else. *)
Theorem missing_row (w : World) (points : number) (userId : string) :
  let after := updateUserPoints userId points w in
  let after' := updatePoints points w in
  after.1 = Returns tt
  ∧ (after.2 = w ↔ users (store w) !! userId = None ∧ userId ∉ Object_prototype)
  ∧ (users (store w) !! userId = None → userId ∈ Object_prototype →
     ∃ row,
       users (store after.2) !! userId = Some row
       ∧ row !! "points" = Some (Num (Math_max (Int 0) points))
       ∧ row !! "totalEarned" = Some (Num NaN)
       ∧ (∀ k, k ≠ "points" → k ≠ "totalEarned" → row !! k = None)
       ∧ calls after.2 = calls w ++ [storage_set storeName (store after.2); saveUser row])
  ∧ (after'.1 = Throws TypeError
     ↔ ∃ u, user (store w) = Some u
            ∧ users (store w) !! to_key (prop u "id") = None
            ∧ to_key (prop u "id") ∉ Object_prototype)
  ∧ (after'.1 = Throws TypeError → after'.2 = w)
  ∧ (∀ u, user (store w) = Some u →
          users (store w) !! to_key (prop u "id") = None →
          to_key (prop u "id") ∈ Object_prototype →
          ∃ row,
            after'.1 = Returns tt
            ∧ users (store after'.2) !! to_key (prop u "id") = Some row
            ∧ user (store after'.2) = Some row
            ∧ row !! "points" = Some (Num points)
            ∧ row !! "totalEarned" = Some (Num NaN)
            ∧ (∀ k, k ≠ "points" → k ≠ "totalEarned" → row !! k = None)).
Proof.
  cbv zeta. split_and!.
  - destruct (lookup_member (users (store w)) userId) as [found|] eqn:Hfound.
    + pose proof (updateUserPoints_found userId points found w Hfound) as H.
      cbv zeta in H. by rewrite H.
    + by rewrite updateUserPoints_absent.
  - rewrite <- lookup_member_none.
    destruct (lookup_member (users (store w)) userId) as [found|] eqn:Hfound.
    + pose proof (updateUserPoints_found userId points found w Hfound) as H.
      cbv zeta in H. rewrite H. cbn [snd]. split; [|done].
      intros Hw. apply (f_equal (λ w, length (calls w))) in Hw.
      cbn [calls] in Hw. rewrite length_app in Hw. simpl in Hw. lia.
    + by rewrite updateUserPoints_absent.
  - intros Hnone Hin.
    assert (Hfound : lookup_member (users (store w)) userId = Some (Inherited userId))
      by by apply lookup_member_inherited.
    pose proof (updateUserPoints_found userId points _ w Hfound) as H.
    cbv zeta in H. rewrite H. cbn [snd store users calls properties].
    eexists. split_and!; [apply lookup_insert_eq | by simplify_map_eq | | | done].
    + rewrite lookup_insert_eq. unfold prop. rewrite !lookup_empty. simpl.
      by destruct points.
    + intros k Hk1 Hk2. by rewrite !lookup_insert_ne, lookup_empty.
  - destruct (user (store w)) as [u|] eqn:Hu.
    + destruct (lookup_member (users (store w)) (to_key (prop u "id")))
        as [found|] eqn:Hfound.
      * pose proof (updatePoints_found points u found w Hu Hfound) as H.
        cbv zeta in H. rewrite H. cbn [fst]. split; [done |].
        intros (u' & [= <-] & Hnone). apply lookup_member_none in Hnone. congruence.
      * rewrite (updatePoints_no_row points u) by done. cbn [fst]. split; [|done].
        intros _. exists u. split; [done |]. by apply lookup_member_none.
    + rewrite updatePoints_signed_out by done. cbn [fst]. split; [done |].
      by intros (u & ? & _).
  - destruct (user (store w)) as [u|] eqn:Hu.
    + destruct (lookup_member (users (store w)) (to_key (prop u "id")))
        as [found|] eqn:Hfound.
      * pose proof (updatePoints_found points u found w Hu Hfound) as H.
        cbv zeta in H. by rewrite H.
      * by rewrite (updatePoints_no_row points u).
    + by rewrite updatePoints_signed_out.
  - intros u Hu Hnone Hin.
    assert (Hfound : lookup_member (users (store w)) (to_key (prop u "id"))
                     = Some (Inherited (to_key (prop u "id"))))
      by by apply lookup_member_inherited.
    pose proof (updatePoints_found points u _ w Hu Hfound) as H.
    cbv zeta in H. rewrite H. cbn [fst snd store users user properties].
    eexists. split_and!; [done | apply lookup_insert_eq | done | by simplify_map_eq | |].
    + rewrite lookup_insert_eq. unfold prop. rewrite !lookup_empty. simpl.
      by destruct points.
    + intros k Hk1 Hk2. by rewrite !lookup_insert_ne, lookup_empty.
Qed.

Lemma integer_of_Some (r : obj) (k : string) (z : Z) :
  integer_of r k = Some z ↔ r !! k = Some (Num (Int z)).
Proof.
  unfold integer_of. destruct (r !! k) as [[|[x| |?]|]|]; split; congruence.
Qed.

Lemma most_earned_nonneg (amounts : list Z) : (0 ≤ most_earned amounts)%Z.
Proof. induction amounts as [|a amounts IH]; simpl; lia. Qed.

(** One [updateUserPoints] on the ledger of the account, within the safe
    integers. *)
Lemma updateUserPoints_ledger_step (w : World) (id : string) (amount b t : Z) :
  balance (store w) id = Some b →
  total_earned (store w) id = Some t →
  (0 ≤ b)%Z →
  safe_integer amount →
  safe_integer t →
  (t + Z.max 0 amount ≤ 2 ^ 53 - 1)%Z →
  let w' := (updateUserPoints id (Int amount) w).2 in
  balance (store w') id = Some (Z.max 0 amount)
  ∧ total_earned (store w') id = Some (t + Z.max 0 (amount - b))%Z.
Proof.
  unfold balance, total_earned. intros Hb Ht Hpos Hamount Hsafe Hroom.
  destruct (users (store w) !! id) as [row|] eqn:Hrow; [|done]. simpl in Hb, Ht.
  apply integer_of_Some in Hb, Ht. cbv zeta.
  pose proof (updateUserPoints_unfold id (Int amount) row w Hrow) as H.
  cbv zeta in H. rewrite H. cbn [snd store users]. rewrite lookup_insert_eq.
  cbn [mbind option_bind].
  split; apply integer_of_Some; [by simplify_map_eq |].
  assert (Hp : prop row "points" = Num (Int b)) by (unfold prop; by rewrite Hb).
  assert (He : prop row "totalEarned" = Num (Int t)) by (unfold prop; by rewrite Ht).
  rewrite lookup_insert_eq, Hp, He. cbn [to_number plus gt].
  unfold safe_integer in *.
  destruct (Z.ltb_spec b amount).
  - rewrite sub_exact by (unfold safe_integer; lia).
    rewrite add_exact by (unfold safe_integer; lia).
    repeat f_equal; lia.
  - rewrite add_exact by (unfold safe_integer; lia).
    repeat f_equal; lia.
Qed.

(** X23. [totalEarned] never goes down under [updateUserPoints], within
    the safe integers: for an account whose [points] is a non-negative
    integer and whose [totalEarned] is a safe integer, after any sequence
    of calls for its id with safe integers, such that [totalEarned]
    together with the positive ones among them is a safe integer still,
    both are integers, [totalEarned] is at least what it was and has grown
    by no more than the positive ones among the balances add up to, the
    balance is not negative, and [totalEarned] has grown by at least as
    much as the balance has. *)
Theorem total_earned_monotone (id : string) (amounts : list Z) (w : World) (b t : Z) :
  balance (store w) id = Some b →
  total_earned (store w) id = Some t →
  (0 ≤ b)%Z →
  safe_integer t →
  Forall safe_integer amounts →
  (t + most_earned amounts ≤ 2 ^ 53 - 1)%Z →
  ∃ b' t',
    balance (store (set_balances id amounts w)) id = Some b'
    ∧ total_earned (store (set_balances id amounts w)) id = Some t'
    ∧ (t ≤ t' ≤ t + most_earned amounts)%Z
    ∧ (0 ≤ b')%Z
    ∧ (b' - b ≤ t' - t)%Z.
Proof.
  revert w b t. unfold set_balances.
  induction amounts as [|a amounts IH]; intros w b t Hb Ht Hpos Hsafe Hall Hroom;
    simpl in *.
  - exists b, t. split_and!; first [done | lia].
  - apply Forall_cons in Hall as [Ha Hall].
    pose proof (most_earned_nonneg amounts) as Hmost.
    destruct (updateUserPoints_ledger_step w id a b t Hb Ht Hpos Ha Hsafe)
      as [Hb1 Ht1]; [lia |].
    destruct (IH _ _ _ Hb1 Ht1) as (b' & t' & Hb' & Ht' & Hle & Hpos' & Hgain);
      [lia | unfold safe_integer in *; lia | done | lia |].
    exists b', t'. split_and!; first [done | lia].
Qed.

(** X24. [updateUserPoints] is idempotent on the state of the store: for
    an account whose [totalEarned] is a number, a second call with the same
    id and the same integer leaves the directory, the active user and the
    rest of the state as the first call left them. *)
Theorem updateUserPoints_idempotent (userId : string) (amount : Z) (row : obj)
    (n : number) (w : World) :
  users (store w) !! userId = Some row →
  row !! "totalEarned" = Some (Num n) →
  let w1 := (updateUserPoints userId (Int amount) w).2 in
  store (updateUserPoints userId (Int amount) w1).2 = store w1.
Proof.
  intros Hrow Hte. cbv zeta.
  pose proof (updateUserPoints_unfold userId (Int amount) row w Hrow) as H1.
  cbv zeta in H1. rewrite H1. cbn [snd].
  set (row1 := <["totalEarned" := _]> (<["points" := _]> row)) in *.
  set (w1 := {| store := _; calls := _ |}).
  assert (Hrow1 : users (store w1) !! userId = Some row1) by apply lookup_insert_eq.
  pose proof (updateUserPoints_unfold userId (Int amount) row1 w1 Hrow1) as H2.
  cbv zeta in H2. rewrite H2. cbn [snd store].
  assert (Hsame : <["totalEarned" :=
                      plus (prop row1 "totalEarned")
                           (if gt (Int amount) (to_number (prop row1 "points"))
                            then sub (Int amount) (to_number (prop row1 "points"))
                            else Int 0)]>
                    (<["points" := Num (Math_max (Int 0) (Int amount))]> row1) = row1).
  { assert (Hp : row1 !! "points" = Some (Num (Int (Z.max 0 amount))))
      by (subst row1; by simplify_map_eq).
    assert (Ht : ∃ m, row1 !! "totalEarned" = Some (Num m) ∧ is_double m).
    { subst row1. rewrite lookup_insert_eq. unfold prop. rewrite Hte.
      eexists. split; [reflexivity | apply add_is_double]. }
    destruct Ht as (m & Ht & Hm).
    rewrite (insert_id row1 "points") by done.
    apply insert_id. unfold prop. rewrite Hp, Ht. cbn [default id to_number plus gt].
    destruct (Z.ltb_spec (Z.max 0 amount) amount); [lia |].
    by rewrite add_zero. }
  rewrite Hsame. subst w1. cbn [store user users isAuthenticated customIcon].
  f_equal.
  - destruct (user (store w)) as [u|] eqn:Hu; [|done].
    destruct (strict_eq_string (prop u "id") userId) eqn:Hid.
    + by destruct (strict_eq_string (prop row1 "id") userId).
    + by rewrite Hid.
  - apply insert_insert_eq.
Qed.

End LedgerFacts.

(** ** Invariants of the store *)

Section StoreInvariants.
Import JS AuthStore Ledger.

Lemma logout_unfold (w : World) :
  let s := {| user := None; users := users (store w);
              isAuthenticated := false; customIcon := customIcon (store w) |} in
  logout w = (Returns tt, {| store := s; calls := calls w ++ [storage_set storeName s] |}).
Proof. reflexivity. Qed.

Lemma updateIcon_unfold (base64 : string) (w : World) :
  let s := {| user := user (store w); users := users (store w);
              isAuthenticated := isAuthenticated (store w);
              customIcon := Some base64 |} in
  updateIcon base64 w =
  (Returns tt, {| store := s; calls := calls w ++ [storage_set storeName s] |}).
Proof. reflexivity. Qed.

Lemma getUser_unfold (userId : string) (w : World) :
  getUser userId w = (Returns (lookup_member (users (store w)) userId), w).
Proof. reflexivity. Qed.

Lemma reset_unfold (getUsers : gmap string obj) (w : World) :
  let s := {| user := None; users := getUsers;
              isAuthenticated := false; customIcon := None |} in
  reset getUsers w =
  (Returns tt,
   {| store := s; calls := calls w ++ [authManager_reset; storage_set storeName s] |}).
Proof.
  unfold reset, bind, perform, set; simpl. by rewrite <- app_assoc.
Qed.

(** In a consistent state the active user is a row under a string id. *)
Lemma consistent_active (s : AuthState) (u : obj) :
  consistent s → user s = Some u →
  ∃ k, u !! "id" = Some (Str k) ∧ to_key (prop u "id") = k ∧ users s !! k = Some u.
Proof.
  intros [Hkeyed Hactive] Hu. unfold active_row in Hactive. rewrite Hu in Hactive.
  pose proof (Hkeyed _ _ Hactive) as Hid. simpl in Hid.
  exists (to_key (prop u "id")). unfold prop in *. rewrite Hid in *. simpl in *.
  rewrite Hid. by simplify_eq.
Qed.

(** X25. The directory and the active user stay in step.  When every row
    is stored under its own string id and the active user is the row that
    the directory has for its id, the same holds after every call of the
    store, provided that [registerUser] gets a string id other than the
    active user's, [login] a string id that the directory has,
    [updateProfile] updates without an [id], [updateUserPoints] an id that
    the directory has or that is not the name of a member of
    [Object.prototype], and [reset] a directory that is keyed in this
    way. *)
Theorem consistent_preserved (a : action) (w : World) :
  consistent (store w) →
  keeps_consistent a (store w) →
  consistent (store (step a w)).
Proof.
  intros Hc Hkeeps. pose proof Hc as [Hkeyed Hactive].
  destruct a as [userData now|userData now| |updates|base64|avatarUrl|points
                |userId points|userId|getUsers]; unfold step; simpl in Hkeeps.
  - (* registerUser *)
    destruct Hkeeps as (k & Hk & Hother).
    pose proof (registerUser_unfold userData now w) as H. cbv zeta in H.
    rewrite H; simpl. unfold prop. rewrite Hk; simpl.
    assert (Hnew : new_account userData now !! "id" = Some (Str k)).
    { unfold new_account, prop. rewrite Hk. by simplify_map_eq. }
    split; simpl.
    + by apply map_Forall_insert_2.
    + unfold active_row; simpl.
      destruct (user (store w)) as [u|] eqn:Hu; [|done].
      destruct (consistent_active _ u Hc Hu) as (ku & Hid & Hkey & Hrow).
      rewrite Hkey. rewrite lookup_insert_ne; [done | congruence].
  - (* login *)
    destruct Hkeeps as (k & Hk & [old Hold]).
    pose proof (login_unfold userData now w) as H. cbv zeta in H.
    rewrite H; simpl. unfold prop at 1 2 3. rewrite Hk; simpl. rewrite Hold; simpl.
    assert (Hid : <["lastLogin" := Str now]> old !! "id" = Some (Str k)).
    { rewrite lookup_insert_ne by done. by apply (Hkeyed k old). }
    split; simpl.
    + by apply map_Forall_insert_2.
    + unfold active_row; simpl. unfold prop. rewrite Hid; simpl.
      apply lookup_insert_eq.
  - (* logout *)
    rewrite logout_unfold; simpl. by split.
  - (* updateProfile *)
    destruct (user (store w)) as [u|] eqn:Hu;
      [|by rewrite updateProfile_signed_out].
    destruct (consistent_active _ u Hc Hu) as (ku & Hid & Hkey & Hrow).
    pose proof (updateProfile_unfold updates u w Hu) as H. cbv zeta in H.
    rewrite H; simpl. rewrite Hkey, Hrow; simpl.
    assert (Hid' : (updates ∪ u) !! "id" = Some (Str ku))
      by by rewrite lookup_union_r.
    split; simpl.
    + by apply map_Forall_insert_2.
    + unfold active_row; simpl. unfold prop. rewrite Hid'; simpl.
      apply lookup_insert_eq.
  - (* updateIcon *)
    rewrite updateIcon_unfold; simpl. by split.
  - (* updateAvatar *)
    destruct (user (store w)) as [u|] eqn:Hu;
      [|by rewrite updateAvatar_signed_out].
    destruct (consistent_active _ u Hc Hu) as (ku & Hid & Hkey & Hrow).
    pose proof (updateAvatar_unfold avatarUrl u w Hu) as H. cbv zeta in H.
    rewrite H; simpl. rewrite Hkey, Hrow; simpl.
    assert (Hid' : <["avatarUrl" := Str avatarUrl]> u !! "id" = Some (Str ku))
      by by rewrite lookup_insert_ne.
    split; simpl.
    + by apply map_Forall_insert_2.
    + unfold active_row; simpl. unfold prop. rewrite Hid'; simpl.
      apply lookup_insert_eq.
  - (* updatePoints *)
    clear Hkeeps.
    destruct (user (store w)) as [u|] eqn:Hu;
      [|by rewrite updatePoints_signed_out].
    destruct (consistent_active _ u Hc Hu) as (ku & Hid & Hkey & Hrow).
    assert (Hrow' : users (store w) !! to_key (prop u "id") = Some u)
      by by rewrite Hkey.
    pose proof (updatePoints_unfold points u u w Hu Hrow') as H. cbv zeta in H.
    rewrite H; simpl. rewrite Hkey.
    set (row := <["totalEarned" := _]> (<["points" := _]> u)).
    assert (Hid' : row !! "id" = Some (Str ku))
      by (subst row; by rewrite !lookup_insert_ne).
    split; simpl.
    + by apply map_Forall_insert_2.
    + unfold active_row; simpl. unfold prop. rewrite Hid'; simpl.
      apply lookup_insert_eq.
  - (* updateUserPoints *)
    destruct (users (store w) !! userId) as [cur|] eqn:Hcur.
    2: { rewrite updateUserPoints_absent; [done |].
         apply lookup_member_none. by destruct Hkeeps as [[? ?]|?]. }
    pose proof (updateUserPoints_unfold userId points cur w Hcur) as H.
    cbv zeta in H. rewrite H; simpl.
    set (row := <["totalEarned" := _]> (<["points" := _]> cur)).
    assert (Hid' : row !! "id" = Some (Str userId)).
    { subst row. rewrite !lookup_insert_ne by done. by apply (Hkeyed userId cur). }
    split; simpl.
    + by apply map_Forall_insert_2.
    + unfold active_row; simpl.
      destruct (user (store w)) as [u|] eqn:Hu; [|done].
      destruct (consistent_active _ u Hc Hu) as (ku & Hid & Hkey & Hrow).
      unfold prop at 1. rewrite Hid; simpl.
      destruct (String.eqb_spec ku userId) as [->|Hne].
      * unfold prop. rewrite Hid'; simpl. apply lookup_insert_eq.
      * rewrite Hkey. by rewrite lookup_insert_ne.
  - (* getUser *)
    by rewrite getUser_unfold.
  - (* reset *)
    rewrite reset_unfold; simpl. by split.
Qed.

(** X26. [isAuthenticated] and the active user stay in step: when
    [isAuthenticated] is [true] exactly if there is an active user, the
    same holds after every call of the store, with any arguments. *)
Theorem flag_in_step_preserved (a : action) (w : World) :
  flag_in_step (store w) → flag_in_step (store (step a w)).
Proof.
  unfold flag_in_step. intros Hflag.
  destruct a as [userData now|userData now| |updates|base64|avatarUrl|points
                |userId points|userId|getUsers]; unfold step.
  - pose proof (registerUser_unfold userData now w) as H. cbv zeta in H.
    by rewrite H.
  - pose proof (login_unfold userData now w) as H. cbv zeta in H. by rewrite H.
  - by rewrite logout_unfold.
  - destruct (user (store w)) as [u|] eqn:Hu.
    + pose proof (updateProfile_unfold updates u w Hu) as H. cbv zeta in H.
      by rewrite H.
    + rewrite updateProfile_signed_out by done. simpl. by rewrite Hu.
  - by rewrite updateIcon_unfold.
  - destruct (user (store w)) as [u|] eqn:Hu.
    + pose proof (updateAvatar_unfold avatarUrl u w Hu) as H. cbv zeta in H.
      by rewrite H.
    + rewrite updateAvatar_signed_out by done. simpl. by rewrite Hu.
  - destruct (user (store w)) as [u|] eqn:Hu.
    + destruct (lookup_member (users (store w)) (to_key (prop u "id")))
        as [found|] eqn:Hfound.
      * pose proof (updatePoints_found points u found w Hu Hfound) as H.
        cbv zeta in H. by rewrite H.
      * rewrite (updatePoints_no_row points u) by done. simpl. by rewrite Hu.
    + rewrite updatePoints_signed_out by done. simpl. by rewrite Hu.
  - destruct (lookup_member (users (store w)) userId) as [found|] eqn:Hfound.
    + pose proof (updateUserPoints_found userId points found w Hfound) as H.
      cbv zeta in H. rewrite H. cbn [snd store user isAuthenticated]. rewrite Hflag.
      destruct (user (store w)) as [u|]; [|done].
      by destruct (strict_eq_string (prop u "id") userId).
    + by rewrite updateUserPoints_absent.
  - by rewrite getUser_unfold.
  - by rewrite reset_unfold.
Qed.

End StoreInvariants.

Section StoreFrames.
Import JS AuthStore Ledger.

(** X27. What [registerUser] has stored, [getUser] returns: after
    [registerUser], [getUser] of the new id returns the account that
    [registerUser] returned; [getUser] of any other id returns what it
    returned before, which is the row that the directory has under the id,
    or else the member of that name that every object inherits from
    [Object.prototype], or else [null]; and [getUser] leaves the world as
    it is. *)
Theorem getUser_after_registerUser (userData : obj) (now : string) (w : World) :
  let w' := (registerUser userData now w).2 in
  let k := to_key (prop userData "loginId") in
  ∃ newUser,
    (registerUser userData now w).1 = Returns newUser
    ∧ getUser k w' = (Returns (Some (Own newUser)), w')
    ∧ (∀ k', k' ≠ k → getUser k' w' = ((getUser k' w).1, w'))
    ∧ (∀ k' row, users (store w) !! k' = Some row →
                 getUser k' w = (Returns (Some (Own row)), w))
    ∧ (∀ k', users (store w) !! k' = None → k' ∈ Object_prototype →
             getUser k' w = (Returns (Some (Inherited k')), w))
    ∧ (∀ k', users (store w) !! k' = None → k' ∉ Object_prototype →
             getUser k' w = (Returns None, w)).
Proof.
  cbv zeta. exists (new_account userData now).
  pose proof (registerUser_unfold userData now w) as H. cbv zeta in H.
  rewrite H. cbn [fst snd]. rewrite !getUser_unfold. cbn [store users].
  split_and!.
  - done.
  - do 2 f_equal. apply lookup_member_own, lookup_insert_eq.
  - intros k' Hk'. rewrite !getUser_unfold. cbn [fst store users].
    unfold lookup_member. by rewrite lookup_insert_ne.
  - intros k' row Hrow. rewrite getUser_unfold.
    do 2 f_equal. by apply lookup_member_own.
  - intros k' Hnone Hin. rewrite getUser_unfold.
    do 2 f_equal. by apply lookup_member_inherited.
  - intros k' Hnone Hin. rewrite getUser_unfold.
    do 2 f_equal. by apply lookup_member_none.
Qed.

(** X28. A call of the store other than [reset] changes at most one row
    of the directory, and leaves [customIcon] as it was unless it is
    [updateIcon]. *)
Theorem one_row_changes (a : action) (w : World) :
  (∀ getUsers, a ≠ DoReset getUsers) →
  (∃ k, ∀ k', k' ≠ k →
        users (store (step a w)) !! k' = users (store w) !! k')
  ∧ ((∀ base64, a ≠ DoUpdateIcon base64) →
     customIcon (store (step a w)) = customIcon (store w)).
Proof.
  intros Hreset.
  destruct a as [userData now|userData now| |updates|base64|avatarUrl|points
                |userId points|userId|getUsers]; unfold step.
  - pose proof (registerUser_unfold userData now w) as H. cbv zeta in H.
    rewrite H; simpl. split; [|done].
    eexists. intros k' Hk'. by rewrite lookup_insert_ne.
  - pose proof (login_unfold userData now w) as H. cbv zeta in H.
    rewrite H; simpl. split; [|done].
    eexists. intros k' Hk'. by rewrite lookup_insert_ne.
  - rewrite logout_unfold; simpl. split; [by exists "" | done].
  - destruct (user (store w)) as [u|] eqn:Hu.
    + pose proof (updateProfile_unfold updates u w Hu) as H. cbv zeta in H.
      rewrite H; simpl. split; [|done].
      eexists. intros k' Hk'. by rewrite lookup_insert_ne.
    + rewrite updateProfile_signed_out by done. split; [by exists "" | done].
  - rewrite updateIcon_unfold; simpl. split; [by exists "" |].
    intros H. by destruct (H base64).
  - destruct (user (store w)) as [u|] eqn:Hu.
    + pose proof (updateAvatar_unfold avatarUrl u w Hu) as H. cbv zeta in H.
      rewrite H; simpl. split; [|done].
      eexists. intros k' Hk'. by rewrite lookup_insert_ne.
    + rewrite updateAvatar_signed_out by done. split; [by exists "" | done].
  - destruct (user (store w)) as [u|] eqn:Hu.
    + destruct (lookup_member (users (store w)) (to_key (prop u "id")))
        as [found|] eqn:Hfound.
      * pose proof (updatePoints_found points u found w Hu Hfound) as H.
        cbv zeta in H. rewrite H. cbn [snd store users customIcon]. split; [|done].
        eexists. intros k' Hk'. by rewrite lookup_insert_ne.
      * rewrite (updatePoints_no_row points u) by done.
        split; [by exists "" | done].
    + rewrite updatePoints_signed_out by done. split; [by exists "" | done].
  - destruct (lookup_member (users (store w)) userId) as [found|] eqn:Hfound.
    + pose proof (updateUserPoints_found userId points found w Hfound) as H.
      cbv zeta in H. rewrite H. cbn [snd store users customIcon]. split; [|done].
      eexists. intros k' Hk'. by rewrite lookup_insert_ne.
    + rewrite updateUserPoints_absent by done. split; [by exists "" | done].
  - rewrite getUser_unfold. split; [by exists "" | done].
  - by destruct (Hreset getUsers).
Qed.

Lemma new_calls_unchanged (w : World) (l : list call) :
  new_calls w w l → l = [].
Proof.
  unfold new_calls. intros H.
  rewrite <- (app_nil_r (calls w)) in H at 1. by apply app_inv_head in H.
Qed.

Lemma new_calls_app (w : World) (s : AuthState) (l0 l : list call) :
  new_calls w {| store := s; calls := calls w ++ l0 |} l → l = l0.
Proof. unfold new_calls; simpl. intros H. by apply app_inv_head in H. Qed.

(** X29. What is handed to [saveUser] is what the directory holds: every
    row that a call of the store passes to [authManager.saveUser] is a row
    of the directory when the call ends. *)
Theorem saved_rows_are_stored (a : action) (w : World) (l : list call) (u : obj) :
  new_calls w (step a w) l →
  In (saveUser u) l →
  ∃ k, users (store (step a w)) !! k = Some u.
Proof.
  destruct a as [userData now|userData now| |updates|base64|avatarUrl|points
                |userId points|userId|getUsers]; unfold step.
  - pose proof (registerUser_unfold userData now w) as H. cbv zeta in H.
    rewrite H; simpl. intros ->%new_calls_app [?|[[= <-]|[?|[]]]]; try done.
    eexists. apply lookup_insert_eq.
  - pose proof (login_unfold userData now w) as H. cbv zeta in H.
    rewrite H; simpl. intros ->%new_calls_app [?|[[= <-]|[]]]; try done.
    eexists. apply lookup_insert_eq.
  - rewrite logout_unfold; simpl. intros ->%new_calls_app [?|[]]; done.
  - destruct (user (store w)) as [u0|] eqn:Hu.
    + pose proof (updateProfile_unfold updates u0 w Hu) as H. cbv zeta in H.
      rewrite H; simpl. intros ->%new_calls_app [?|[[= <-]|[]]]; try done.
      eexists. apply lookup_insert_eq.
    + rewrite updateProfile_signed_out by done.
      by intros ->%new_calls_unchanged [].
  - rewrite updateIcon_unfold; simpl. intros ->%new_calls_app [?|[]]; done.
  - destruct (user (store w)) as [u0|] eqn:Hu.
    + pose proof (updateAvatar_unfold avatarUrl u0 w Hu) as H. cbv zeta in H.
      rewrite H; simpl. intros ->%new_calls_app [?|[[= <-]|[]]]; try done.
      eexists. apply lookup_insert_eq.
    + rewrite updateAvatar_signed_out by done.
      by intros ->%new_calls_unchanged [].
  - destruct (user (store w)) as [u0|] eqn:Hu.
    + destruct (lookup_member (users (store w)) (to_key (prop u0 "id")))
        as [found|] eqn:Hfound.
      * pose proof (updatePoints_found points u0 found w Hu Hfound) as H.
        cbv zeta in H. rewrite H. cbn [snd store users].
        intros ->%new_calls_app [?|[[= <-]|[]]]; try done.
        eexists. apply lookup_insert_eq.
      * rewrite (updatePoints_no_row points u0) by done.
        by intros ->%new_calls_unchanged [].
    + rewrite updatePoints_signed_out by done.
      by intros ->%new_calls_unchanged [].
  - destruct (lookup_member (users (store w)) userId) as [found|] eqn:Hfound.
    + pose proof (updateUserPoints_found userId points found w Hfound) as H.
      cbv zeta in H. rewrite H. cbn [snd store users].
      intros ->%new_calls_app [?|[[= <-]|[]]]; try done.
      eexists. apply lookup_insert_eq.
    + rewrite updateUserPoints_absent by done.
      by intros ->%new_calls_unchanged [].
  - rewrite getUser_unfold. by intros ->%new_calls_unchanged [].
  - rewrite reset_unfold; simpl. intros ->%new_calls_app [?|[?|[]]]; done.
Qed.

End StoreFrames.

(** ** The further properties on sample inputs *)

Section StorageSamplesMore.
Import WebStorage StorageManager StorageManagerGet BrowserHelper.

Lemma well_formed_one (k v : string) : well_formed [(k, v)].
Proof. apply NoDup_singleton. Defined.

Lemma well_formed_none : well_formed [].
Proof. apply NoDup_nil_2. Defined.

Lemma clearAll_then_sync_witness :
  let b := both_hold "pointmoney_users" "{}" in
  getItem (getKey "users") (localStorage (clearAll b)) = None
  ∧ getItem (getKey "users") (localStorage (sync unlimited (clearAll b))) = Some "{}".
Proof.
  apply (clearAll_then_sync unlimited (both_hold "pointmoney_users" "{}") "users" "{}");
    reflexivity.
Defined.

Lemma get_after_set_witness :
  let b := {| localStorage := []; sessionStorage := [] |} in
  (StorageManager.set session_full string stringify_string "users" "{}" b).1 = false
  ∧ StorageManagerGet.get string parse_string never_null "users" "none"
      (StorageManager.set session_full string stringify_string "users" "{}" b).2
    = "{}".
Proof.
  split; [reflexivity |].
  apply (get_after_set session_full string stringify_string parse_string never_null
           "users" "{}" "{}" "none" "{}"); reflexivity.
Defined.

Lemma remove_effect_witness :
  let b := both_hold "pointmoney_users" "{}" in
  StorageManagerGet.get string parse_string never_null "users" "none"
    (StorageManager.remove "users" b).2 = "none".
Proof.
  destruct (remove_effect string parse_string never_null "users" "none"
              (both_hold "pointmoney_users" "{}")
              (well_formed_one _ _) (well_formed_one _ _)) as (_ & _ & _ & H & _).
  exact H.
Defined.

Lemma set_other_keys_witness :
  let b := both_hold "pointmoney_users" "{}" in
  getItem "pointmoney_users"
    (localStorage (StorageManager.set unlimited string stringify_string
                     "point-storage" "1" b).2) = Some "{}".
Proof.
  destruct (set_other_keys unlimited string stringify_string "point-storage" "1"
              (both_hold "pointmoney_users" "{}") "pointmoney_users") as [H _].
  - intros H. discriminate H.
  - exact H.
Defined.

Lemma sync_keeps_local_witness :
  let b := {| localStorage := [("pointmoney_users", "new")];
              sessionStorage := [("pointmoney_users", "old")] |} in
  getItem "pointmoney_users" (localStorage (sync unlimited b)) = Some "new"
  ∧ getItem "pointmoney_users" (sessionStorage (sync unlimited b)) = Some "new".
Proof.
  destruct (sync_keeps_local unlimited
              {| localStorage := [("pointmoney_users", "new")];
                 sessionStorage := [("pointmoney_users", "old")] |}
              "pointmoney_users" "new" eq_refl eq_refl) as [H1 H2].
  split; [exact H1 | apply H2; reflexivity].
Defined.

Lemma sync_converges_witness :
  getItem (getKey "users") (localStorage (sync unlimited users_in_session_only))
  = Some "{}".
Proof.
  apply (sync_converges unlimited users_in_session_only "users" "{}");
    reflexivity.
Defined.

Lemma well_formed_preserved_witness :
  let b := both_hold "pointmoney_users" "{}" in
  well_formed (localStorage (sync unlimited b))
  ∧ well_formed (sessionStorage (sync unlimited b)).
Proof.
  apply (well_formed_preserved unlimited string stringify_string "users" "{}"
           (both_hold "pointmoney_users" "{}")
           (well_formed_one _ _) (well_formed_one _ _)).
  right. right. left. reflexivity.
Defined.

Lemma helper_sync_converges_witness :
  let b := {| localStorage := []; sessionStorage := [("theme", "dark")] |} in
  getItem "theme" (localStorage (BrowserStorage.sync unlimited b).2) = Some "dark".
Proof.
  apply (helper_sync_converges unlimited
           {| localStorage := []; sessionStorage := [("theme", "dark")] |}
           "theme" "dark"); reflexivity.
Defined.

Lemma helper_get_repairs_witness :
  let b := {| localStorage := []; sessionStorage := [("theme", "dark")] |} in
  (BrowserHelper.get unlimited string parse_string "theme" "none" b).1 = "dark"
  ∧ getItem "theme"
      (localStorage (BrowserHelper.get unlimited string parse_string "theme" "none" b).2)
    = Some "dark".
Proof.
  destruct (helper_get_repairs unlimited string parse_string "theme" "dark" "dark"
              "none" {| localStorage := []; sessionStorage := [("theme", "dark")] |}
              eq_refl) as [_ H].
  destruct (H eq_refl eq_refl eq_refl) as (H1 & H2 & _).
  split; [exact H1 | exact H2].
Defined.

Lemma helper_set_listeners_witness :
  let b := {| localStorage := []; sessionStorage := [] |} in
  BrowserHelper.set unlimited string stringify_text 2 "theme" "dark" b
  = BrowserHelper.set unlimited string stringify_text 0 "theme" "dark" b.
Proof.
  apply (helper_set_listeners unlimited string stringify_text 2 "theme" "dark").
  intros H. discriminate H.
Defined.

Lemma helper_set_undefined_witness :
  let b := {| localStorage := []; sessionStorage := [] |} in
  (BrowserHelper.set unlimited unit stringify_undefined 1 "theme" tt b).1 = true
  ∧ getItem "theme"
      (localStorage (BrowserHelper.set unlimited unit stringify_undefined 1 "theme" tt b).2)
    = Some "undefined"
  ∧ getItem "theme"
      (sessionStorage (BrowserHelper.set unlimited unit stringify_undefined 1 "theme" tt b).2)
    = None
  ∧ getItem "theme"
      (sessionStorage (BrowserHelper.set unlimited unit stringify_undefined 0 "theme" tt b).2)
    = Some "undefined".
Proof.
  apply (helper_set_undefined unlimited unit stringify_undefined 0 "theme" tt
           {| localStorage := []; sessionStorage := [] |});
    first [reflexivity | exact well_formed_none].
Defined.

Lemma handleStorage_mirror_witness :
  let b := both_hold "theme" "dark" in
  let e := {| key := Some "theme"; newValue := None; storageArea := Some InLocal |} in
  getItem "theme" (sessionStorage (deliver unlimited e b)) = None.
Proof.
  destruct (handleStorage_mirror unlimited InLocal "theme" None (both_hold "theme" "dark")
              eq_refl (well_formed_one _ _) (well_formed_one _ _)) as (H & _).
  exact (H eq_refl).
Defined.

Lemma checkFeatureSupport_probe_witness :
  let b := {| localStorage := [("test", "mine")]; sessionStorage := [] |} in
  (checkFeatureSupport unlimited sample_page "localStorage" b).1 = true
  ∧ getItem "test"
      (localStorage (checkFeatureSupport unlimited sample_page "localStorage" b).2)
    = None.
Proof.
  destruct (checkFeatureSupport_probe unlimited sample_page
              {| localStorage := [("test", "mine")]; sessionStorage := [] |}
              (well_formed_one _ _)) as (H1 & H2 & _).
  split; [exact H1 | apply H2; exact H1].
Defined.

End StorageSamplesMore.

Section LedgerSamples.
Import JS AuthStore Ledger.

Lemma total_earned_monotone_witness :
  let w := signed_out "u1" (account "u1" 40 100) in
  ∃ b' t',
    balance (store (set_balances "u1" [90; 10; -5]%Z w)) "u1" = Some b'
    ∧ total_earned (store (set_balances "u1" [90; 10; -5]%Z w)) "u1" = Some t'
    ∧ (100 ≤ t')%Z.
Proof.
  destruct (total_earned_monotone "u1" [90; 10; -5]%Z
              (signed_out "u1" (account "u1" 40 100)) 40 100)
    as (b' & t' & H1 & H2 & [H3 _] & _);
    [reflexivity | reflexivity | lia | unfold safe_integer; lia
    | repeat constructor; unfold safe_integer; lia
    | unfold most_earned; simpl; lia |].
  exists b', t'. split; [exact H1 |]. split; [exact H2 | exact H3].
Defined.

(** Sums of doubles, and the strings of doubles: 2^53 + 1 is 2^53, the
    doubles next to 2^53 are 2 apart, 2^64 prints with the 17 digits that
    tell it from its neighbours, and from 10^21 on a number prints with an
    exponent. *)
Example double_samples :
  add (Int (2 ^ 53)) (Int 1) = Int (2 ^ 53)
  ∧ add (Int (2 ^ 53)) (Int 2) = Int (2 ^ 53 + 2)
  ∧ add (Int (2 ^ 53)) (Int 3) = Int (2 ^ 53 + 4)
  ∧ sub (Int (- 2 ^ 53)) (Int 1) = Int (- 2 ^ 53)
  ∧ add (Int (2 ^ 1023)) (Int (2 ^ 1023)) = Infinity false
  ∧ number_to_string (Int (2 ^ 53)) = "9007199254740992"
  ∧ number_to_string (Int (-120)) = "-120"
  ∧ number_to_string (Int (2 ^ 64)) = "18446744073709552000"
  ∧ number_to_string (Int (10 ^ 21)) = "1e+21"
  ∧ number_to_string (Int (2 ^ 70)) = "1.1805916207174113e+21".
Proof. vm_compute. split_and!; reflexivity. Qed.

(** The members that a directory inherits.  The directory has the one row
    [u1]: [getUser] finds the function [toString], and [null] for [ghost];
    [updateUserPoints] leaves the world as it is for [ghost], and for
    [constructor] it stores a row with [points] 5 and a [totalEarned] of
    [NaN]. *)
Example inherited_member_samples :
  let w := signed_in "u1" (account "u1" 40 100) in
  (getUser "toString" w).1 = Returns (Some (Inherited "toString"))
  ∧ (getUser "ghost" w).1 = Returns None
  ∧ (getUser "u1" w).1 = Returns (Some (Own (account "u1" 40 100)))
  ∧ updateUserPoints "ghost" (Int 5) w = (Returns tt, w)
  ∧ users (store (updateUserPoints "constructor" (Int 5) w).2) !! "constructor"
    = Some {[ "points" := Num (Int 5); "totalEarned" := Num NaN ]}
  ∧ users (store (updateUserPoints "constructor" (Int 5) w).2) !! "u1"
    = Some (account "u1" 40 100).
Proof. cbv zeta. split_and!; reflexivity. Qed.

Lemma updateUserPoints_idempotent_witness :
  let w := signed_in "u1" (account "u1" 40 100) in
  store (updateUserPoints "u1" (Int 90) (updateUserPoints "u1" (Int 90) w).2).2
  = store (updateUserPoints "u1" (Int 90) w).2.
Proof.
  apply (updateUserPoints_idempotent "u1" 90 (account "u1" 40 100) (Int 100));
    reflexivity.
Defined.

Lemma consistent_signed_in :
  consistent (store (signed_in "u1" (account "u1" 40 100))).
Proof.
  split.
  - apply map_Forall_singleton. reflexivity.
  - reflexivity.
Defined.

Lemma consistent_preserved_witness :
  let w := signed_in "u1" (account "u1" 40 100) in
  consistent (store w)
  ∧ keeps_consistent (DoUpdateUserPoints "u1" (Int 90)) (store w)
  ∧ consistent (store (step (DoUpdateUserPoints "u1" (Int 90)) w)).
Proof.
  assert (H : keeps_consistent (DoUpdateUserPoints "u1" (Int 90))
                (store (signed_in "u1" (account "u1" 40 100)))).
  { left. eexists. reflexivity. }
  split; [exact consistent_signed_in |]. split; [exact H |].
  exact (consistent_preserved (DoUpdateUserPoints "u1" (Int 90))
           (signed_in "u1" (account "u1" 40 100)) consistent_signed_in H).
Defined.

Lemma flag_in_step_preserved_witness :
  let w := signed_in "u1" (account "u1" 40 100) in
  flag_in_step (store w) ∧ flag_in_step (store (step DoLogout w)).
Proof.
  split; [reflexivity |].
  apply (flag_in_step_preserved DoLogout (signed_in "u1" (account "u1" 40 100))).
  reflexivity.
Defined.

Lemma one_row_changes_witness :
  let w := signed_in "u1" (account "u1" 40 100) in
  customIcon (store (step (DoUpdatePoints (Int 5)) w)) = customIcon (store w).
Proof.
  destruct (one_row_changes (DoUpdatePoints (Int 5))
              (signed_in "u1" (account "u1" 40 100))) as [_ H].
  - intros getUsers H. discriminate H.
  - apply H. intros base64 H'. discriminate H'.
Defined.

Lemma saved_rows_are_stored_witness :
  let w := signed_in "u1" (account "u1" 40 100) in
  ∃ u k, In (saveUser u) [storage_set storeName (store (step (DoUpdateAvatar "a.png") w));
                          saveUser u]
         ∧ users (store (step (DoUpdateAvatar "a.png") w)) !! k = Some u.
Proof.
  eexists.
  destruct (saved_rows_are_stored (DoUpdateAvatar "a.png")
              (signed_in "u1" (account "u1" 40 100))
              _ _ eq_refl (or_intror (or_introl eq_refl))) as [k Hk].
  exists k. split; [right; left; reflexivity | exact Hk].
Defined.

End LedgerSamples.
